(** * LogUnify node SDK: the batching logger of [src/index.ts]

    A shallow embedding of the class [LogUnifyLogger] and of the event
    loop it runs on, followed by the properties of the buffer, of the
    flush cycle, of the scheduler and of the singleton life cycle.

    Conventions of the embedding.
    - JavaScript numbers that the code uses as counts and durations are
      integers of [Z]; the quotient [Date.now() / 1000] is an exact
      rational of [Q].
    - The methods of an event are total and pure, as the interface
      [LogUnifyEvent] types them; the method [toObject], which the
      interface does not declare, is optional.
    - An [await] is a point where the running function is suspended and
      the event loop may run other callbacks: the suspended call of
      [sendEvents] is kept as a first-order continuation ([Task]). *)

From Stdlib Require Import List String Ascii Bool.
From Stdlib.Strings Require Import Byte.
From Stdlib Require Import ZArith NArith QArith Lia.
Import ListNotations.

Set Warnings "-register-all".

Local Open Scope string_scope.
Local Open Scope list_scope.
Local Open Scope Z_scope.

(** ** Library functions of the platform *)

Module Base64.

(** [Buffer.from(bytes).toString('base64')]: the standard alphabet, with
    padding. *)
Definition alphabet : string :=
  "ABCDEFGHIJKLMNOPQRSTUVWXYZabcdefghijklmnopqrstuvwxyz0123456789+/".

Definition pad : ascii := "="%char.

Definition digit (n : N) : ascii :=
  match String.get (N.to_nat n) alphabet with
  | Some c => c
  | None => pad
  end.

Definition low6 (n : N) : N := N.land n 63.

Fixpoint encode (bs : list byte) : string :=
  match bs with
  | [] => EmptyString
  | [a] =>
      let n := N.shiftl (Byte.to_N a) 16 in
      String (digit (low6 (N.shiftr n 18)))
        (String (digit (low6 (N.shiftr n 12)))
           (String pad (String pad EmptyString)))
  | [a; b] =>
      let n := N.lor (N.shiftl (Byte.to_N a) 16) (N.shiftl (Byte.to_N b) 8) in
      String (digit (low6 (N.shiftr n 18)))
        (String (digit (low6 (N.shiftr n 12)))
           (String (digit (low6 (N.shiftr n 6)))
              (String pad EmptyString)))
  | a :: b :: c :: rest =>
      let n := N.lor (N.lor (N.shiftl (Byte.to_N a) 16)
                            (N.shiftl (Byte.to_N b) 8)) (Byte.to_N c) in
      String (digit (low6 (N.shiftr n 18)))
        (String (digit (low6 (N.shiftr n 12)))
           (String (digit (low6 (N.shiftr n 6)))
              (String (digit (low6 n)) (encode rest))))
  end.

Definition bytes_of_string (s : string) : list byte :=
  map byte_of_ascii (list_ascii_of_string s).

End Base64.

Module JSON.

Local Open Scope string_scope.

(** The values the logger serialises: strings, arrays and objects. *)
Inductive value : Type :=
| Str (s : string)
| Arr (items : list value)
| Obj (fields : list (string * value)).

Definition dquote : ascii := "034"%char.
Definition backslash : ascii := "092"%char.

Definition hex_digit (n : N) : ascii :=
  match String.get (N.to_nat n) "0123456789abcdef" with
  | Some c => c
  | None => "0"%char
  end.

(** One character of a quoted JSON string (ECMAScript QuoteJSONString). *)
Definition escape (c : ascii) : string :=
  let n := N_of_ascii c in
  if (n =? 34)%N then String backslash (String dquote EmptyString)
  else if (n =? 92)%N then String backslash (String backslash EmptyString)
  else if (n =? 8)%N then String backslash "b"
  else if (n =? 12)%N then String backslash "f"
  else if (n =? 10)%N then String backslash "n"
  else if (n =? 13)%N then String backslash "r"
  else if (n =? 9)%N then String backslash "t"
  else if (n <? 32)%N then
    String backslash
      ("u00" ++ String (hex_digit (n / 16)) (String (hex_digit (n mod 16)) EmptyString))
  else String c EmptyString.

Fixpoint escape_all (s : string) : string :=
  match s with
  | EmptyString => EmptyString
  | String c rest => escape c ++ escape_all rest
  end.

Definition quote (s : string) : string :=
  String dquote (escape_all s ++ String dquote EmptyString).

Fixpoint stringify (v : value) : string :=
  match v with
  | Str s => quote s
  | Arr items =>
      let fix elements (l : list value) : string :=
        match l with
        | [] => EmptyString
        | [x] => stringify x
        | x :: rest => stringify x ++ "," ++ elements rest
        end in
      "[" ++ elements items ++ "]"
  | Obj fields =>
      let fix members (l : list (string * value)) : string :=
        match l with
        | [] => EmptyString
        | [(k, x)] => quote k ++ ":" ++ stringify x
        | (k, x) :: rest => quote k ++ ":" ++ stringify x ++ "," ++ members rest
        end in
      "{" ++ members fields ++ "}"
  end.

End JSON.

(** ** Data model *)

(** [type Options]: [apiKey] is required, the other fields may be absent. *)
Record Options : Type := mkOptions {
  opt_apiKey : string;
  opt_receiverURL : option string;
  opt_batchInterval : option Z;
  opt_minBatchSize : option Z;
  opt_enableDebugLog : option bool
}.

(** [interface LogUnifyEvent], with the undeclared method [toObject] that
    [log] calls on its argument (typed [any]). *)
Record LogUnifyEvent : Type := mkEvent {
  getSchemaName : string;
  getProjectName : string;
  serialize : list byte;
  toObject : option JSON.value
}.

Inductive Level : Type := LevelDebug | LevelInfo.

(** The fields of the class. [maxBulkSize], [maxAttempts] and
    [maxUnsentEvents] are private and never assigned after their
    initialiser: they are constants below. *)
Record LogUnifyLogger : Type := mkLogger {
  receiverURL : string;
  batchInterval : Z;
  minBatchSize : Z;
  events : list LogUnifyEvent;
  isSendingEvents : bool;
  lastScheduled : Q;
  apiKey : string;
  loggerLevel : Level
}.

Definition maxBulkSize : Z := 50.
Definition maxAttempts : Z := 3.
Definition maxUnsentEvents : Z := 5000.

(** ** JavaScript operators used by the class *)

(** [x || d] on an optional string: the empty string and [undefined] are
    falsy. *)
Definition or_string (x : option string) (d : string) : string :=
  match x with
  | Some EmptyString => d
  | Some s => s
  | None => d
  end.

(** [x || d] on an optional number: [0] and [undefined] are falsy. *)
Definition or_number (x : option Z) (d : Z) : Z :=
  match x with
  | Some n => if n =? 0 then d else n
  | None => d
  end.

(** [x ? a : b] on an optional boolean. *)
Definition truthy_bool (x : option bool) : bool :=
  match x with
  | Some b => b
  | None => false
  end.

Definition len {A : Type} (l : list A) : Z := Z.of_nat (List.length l).

(** [l.slice(0, n)] and [l.splice(0, n)] (the array that is left). *)
Definition slice0 {A : Type} (n : Z) (l : list A) : list A := firstn (Z.to_nat n) l.
Definition splice0 {A : Type} (n : Z) (l : list A) : list A := skipn (Z.to_nat n) l.

(** ** Configuration and the singleton *)

Definition configure (options : Options) (this : LogUnifyLogger) : LogUnifyLogger :=
  {| receiverURL := or_string (opt_receiverURL options) (receiverURL this);
     batchInterval := or_number (opt_batchInterval options) (batchInterval this);
     minBatchSize := or_number (opt_minBatchSize options) (minBatchSize this);
     events := events this;
     isSendingEvents := isSendingEvents this;
     lastScheduled := lastScheduled this;
     apiKey := opt_apiKey options;
     loggerLevel := loggerLevel this |}.

(** The field initialisers, then the body of the constructor. *)
Definition fresh (options : Options) : LogUnifyLogger :=
  {| receiverURL := "http://localhost:8081/api/events/_bulk";
     batchInterval := 5000;
     minBatchSize := 10;
     events := [];
     isSendingEvents := false;
     lastScheduled := (-1) # 1;
     apiKey := opt_apiKey options;
     loggerLevel := if truthy_bool (opt_enableDebugLog options) then LevelDebug else LevelInfo |}.

Definition construct (options : Options) : LogUnifyLogger :=
  configure options (fresh options).

(** ** The event loop around the instance *)

(** Why a request was rejected; the logger only prints it. *)
Inductive TransportError : Type :=
| BadStatus (code : Z)
| NetworkError
| Timeout.

(** How the promise of [axios.post] settles. *)
Inductive Outcome : Type :=
| Resolved
| Rejected (e : TransportError).

Record Request : Type := mkRequest {
  url : string;
  body : string;
  headers : list (string * string)
}.

(** The calls made on the winston logger, by their template. *)
Inductive Message : Type :=
| ReachedMaxUnsent (bound : Z)
| LoggedEvent (payload : JSON.value)
| ScheduledBatch (interval : Z)
| ScheduledImmediate
| StartedSending
| RetriedButFailed (attempts : Z)
| SentEvents (n : Z)
| FailedToSend (n : Z) (e : TransportError).

(** What the instance does to its environment, in order. [Returned v] marks
    the end of a flush cycle (a call of [sendEvents] that passed its guard)
    and the value its promise settles with ([None] for [undefined]). *)
Inductive Effect : Type :=
| LoggerError (m : Message)
| LoggerDebug (m : Message)
| SetTimeout (delay : Z)
| AxiosPost (r : Request)
| Returned (v : option bool).

(** A call of [sendEvents] suspended at [await this.makeRequest(bulk)]: its
    live local variables. *)
Record Task : Type := mkTask {
  bulk : list LogUnifyEvent;
  attemptsLeft : Z
}.

Record World : Type := mkWorld {
  self : LogUnifyLogger;
  timers : list Z;
  inflight : list Task;
  trace : list Effect
}.

Inductive Error : Type :=
| TypeError (msg : string)
| PlainError (msg : string).

Inductive Completion : Type :=
| Normal (w : World)
| Throw (e : Error) (w : World).

Definition world_of (c : Completion) : World :=
  match c with
  | Normal w => w
  | Throw _ w => w
  end.

Definition emit (e : Effect) (w : World) : World :=
  {| self := self w; timers := timers w; inflight := inflight w;
     trace := trace w ++ [e] |}.

Definition update (f : LogUnifyLogger -> LogUnifyLogger) (w : World) : World :=
  {| self := f (self w); timers := timers w; inflight := inflight w;
     trace := trace w |}.

Definition arm (delay : Z) (w : World) : World :=
  {| self := self w; timers := timers w ++ [delay]; inflight := inflight w;
     trace := trace w ++ [SetTimeout delay] |}.

Definition suspend (t : Task) (w : World) : World :=
  {| self := self w; timers := timers w; inflight := inflight w ++ [t];
     trace := trace w |}.

Definition set_events (l : list LogUnifyEvent) (o : LogUnifyLogger) : LogUnifyLogger :=
  {| receiverURL := receiverURL o; batchInterval := batchInterval o;
     minBatchSize := minBatchSize o; events := l;
     isSendingEvents := isSendingEvents o; lastScheduled := lastScheduled o;
     apiKey := apiKey o; loggerLevel := loggerLevel o |}.

Definition set_isSendingEvents (b : bool) (o : LogUnifyLogger) : LogUnifyLogger :=
  {| receiverURL := receiverURL o; batchInterval := batchInterval o;
     minBatchSize := minBatchSize o; events := events o;
     isSendingEvents := b; lastScheduled := lastScheduled o;
     apiKey := apiKey o; loggerLevel := loggerLevel o |}.

Definition set_lastScheduled (q : Q) (o : LogUnifyLogger) : LogUnifyLogger :=
  {| receiverURL := receiverURL o; batchInterval := batchInterval o;
     minBatchSize := minBatchSize o; events := events o;
     isSendingEvents := isSendingEvents o; lastScheduled := q;
     apiKey := apiKey o; loggerLevel := loggerLevel o |}.

(** ** [makeRequest] *)

Definition postingEvent (event : LogUnifyEvent) : JSON.value :=
  JSON.Obj
    [ ("serializedEvent", JSON.Str (Base64.encode (serialize event)));
      ("schemaName", JSON.Str (getSchemaName event));
      ("projectName", JSON.Str (getProjectName event)) ].

Definition postingEvents (evs : list LogUnifyEvent) : list JSON.value :=
  map postingEvent evs.

Definition request_of (o : LogUnifyLogger) (evs : list LogUnifyEvent) : Request :=
  {| url := receiverURL o;
     body := JSON.stringify (JSON.Obj [("events", JSON.Arr (postingEvents evs))]);
     headers := [ ("Content-Type", "application/json");
                  ("X-Auth-Token", apiKey o) ] |}.

(** Up to the [await]: the request is built and posted. *)
Definition makeRequest_call (evs : list LogUnifyEvent) (w : World) : World :=
  emit (AxiosPost (request_of (self w) evs)) w.

(** After the [await]: the [try] returns [true], the [catch] [false]. *)
Definition makeRequest_settle (evs : list LogUnifyEvent) (r : Outcome) (w : World)
  : bool * World :=
  match r with
  | Resolved => (true, emit (LoggerDebug (SentEvents (len evs))) w)
  | Rejected e => (false, emit (LoggerDebug (FailedToSend (len evs) e)) w)
  end.

(** ** [sendEvents] *)

(** [-- attemptsLeft; await this.makeRequest(bulk)] *)
Definition attempt (b : list LogUnifyEvent) (left : Z) (w : World) : World :=
  suspend {| bulk := b; attemptsLeft := left - 1 |} (makeRequest_call b w).

(** The branch [attemptsLeft === 0] after the inner loop. *)
Definition give_up_cycle (w : World) : World :=
  emit (Returned (Some false))
    (emit (LoggerDebug (RetriedButFailed maxAttempts))
       (update (set_isSendingEvents false) w)).

(** The head of the outer loop. The inner loop is entered with
    [attemptsLeft = maxAttempts], so its first test is on the constant. *)
Definition outer_loop (w : World) : World :=
  if 0 <? len (events (self w)) then
    let b := slice0 maxBulkSize (events (self w)) in
    if 0 <? maxAttempts then attempt b maxAttempts w
    else give_up_cycle w
  else emit (Returned None) (update (set_isSendingEvents false) w).

(** The statement after the inner loop. *)
Definition after_attempts (left : Z) (w : World) : World :=
  if left =? 0 then give_up_cycle w else outer_loop w.

(** The head of the inner loop. *)
Definition inner_loop (b : list LogUnifyEvent) (left : Z) (w : World) : World :=
  if 0 <? left then attempt b left w else after_attempts left w.

(** The continuation of a suspended call when its request settles. *)
Definition resume (r : Outcome) (t : Task) (w : World) : World :=
  let '(ok, w1) := makeRequest_settle (bulk t) r w in
  if ok then
    after_attempts (attemptsLeft t)
      (update (fun o => set_events (splice0 (len (bulk t)) (events o)) o) w1)
  else inner_loop (bulk t) (attemptsLeft t) w1.

Definition sendEvents (w : World) : World :=
  if isSendingEvents (self w) then w
  else outer_loop (update (set_isSendingEvents true) (emit (LoggerDebug StartedSending) w)).

(** ** [log] *)

(** [Date.now() / 1000], for [Date.now()] in milliseconds. *)
Definition seconds (now : Z) : Q := now # 1000.

Definition Qltb (x y : Q) : bool := negb (Qle_bool y x).

(** [this.events.push(event)] *)
Definition push (event : LogUnifyEvent) (w : World) : World :=
  update (fun o => set_events (events o ++ [event]) o) w.

(** The overflow branch: one [logger.error], then [splice(0, 1)]. *)
Definition purge (w : World) : World :=
  if maxUnsentEvents <? len (events (self w)) then
    update (fun o => set_events (splice0 1 (events o)) o)
      (emit (LoggerError (ReachedMaxUnsent maxUnsentEvents)) w)
  else w.

(** [this.lastScheduled == -1 ||
     Date.now() / 1000 - this.lastScheduled > this.batchInterval] *)
Definition due (now : Z) (o : LogUnifyLogger) : bool :=
  Qeq_bool (lastScheduled o) ((-1) # 1)
  || Qltb (inject_Z (batchInterval o)) (seconds now - lastScheduled o).

(** The scheduling branch: the timer is armed with [batchInterval], in
    milliseconds as [setTimeout] takes it. *)
Definition schedule (now : Z) (w : World) : World :=
  if due now (self w) then
    arm (batchInterval (self w))
      (update (set_lastScheduled (seconds now))
         (emit (LoggerDebug (ScheduledBatch (batchInterval (self w)))) w))
  else w.

(** The size trigger: [this.events.length === this.minBatchSize]. *)
Definition trigger (w : World) : World :=
  if len (events (self w)) =? minBatchSize (self w) then
    sendEvents (emit (LoggerDebug ScheduledImmediate) w)
  else w.

Definition not_a_function : Error := TypeError "event.toObject is not a function".

(** [log(event)] at [Date.now() = now]. The argument of [logger.debug] is
    evaluated before the call: without [toObject] the property read gives
    [undefined] and calling it throws. *)
Definition log (now : Z) (event : LogUnifyEvent) (w : World) : Completion :=
  let w1 := purge (push event w) in
  match toObject event with
  | None => Throw not_a_function w1
  | Some payload =>
      Normal (trigger (schedule now (emit (LoggerDebug (LoggedEvent payload)) w1)))
  end.

(** ** The static members *)

(** The static field [instance], [None] while it is [undefined], together
    with the timers and requests its instance has pending. *)
Definition Program : Type := option World.

Definition boot : Program := None.

Definition new_world (options : Options) : World :=
  {| self := construct options; timers := []; inflight := []; trace := [] |}.

(** [setup] returns [this.instance]; the field holds the same value. *)
Definition setup (options : Options) (p : Program) : World :=
  match p with
  | None => new_world options
  | Some w => update (configure options) w
  end.

Definition uninitialized : string :=
  "Logger is not initialized, please call setupLogger() to initialize the logger.".

Definition get (p : Program) : Error + World :=
  match p with
  | None => inl (PlainError uninitialized)
  | Some w => inr w
  end.

(** ** Runs of the event loop *)

(** One turn of the loop: a call of the public interface by the
    application, the callback of the [k]-th pending timer, or the
    continuation of the [k]-th suspended call when its request settles. *)
Inductive Action : Type :=
| CallSetup (options : Options)
| CallLog (now : Z) (event : LogUnifyEvent)
| TimerFires (k : nat)
| Settles (k : nat) (r : Outcome).

Definition drop_nth {A : Type} (k : nat) (l : list A) : list A :=
  firstn k l ++ skipn (S k) l.

Definition fire (k : nat) (w : World) : World :=
  match nth_error (timers w) k with
  | Some _ =>
      sendEvents {| self := self w; timers := drop_nth k (timers w);
                    inflight := inflight w; trace := trace w |}
  | None => w
  end.

Definition settle (k : nat) (r : Outcome) (w : World) : World :=
  match nth_error (inflight w) k with
  | Some t =>
      resume r t {| self := self w; timers := timers w;
                    inflight := drop_nth k (inflight w); trace := trace w |}
  | None => w
  end.

Definition step (a : Action) (p : Program) : Program :=
  match a with
  | CallSetup options => Some (setup options p)
  | CallLog now event =>
      match get p with
      | inl _ => p
      | inr w => Some (world_of (log now event w))
      end
  | TimerFires k => option_map (fire k) p
  | Settles k r => option_map (settle k r) p
  end.

Definition run (acts : list Action) (p : Program) : Program :=
  fold_left (fun q a => step a q) acts p.

(** ** [logFormat] *)




(** * Vocabulary of the properties *)

(** ** Observations on worlds and traces *)

Definition is_setup (a : Action) : bool :=
  match a with
  | CallSetup _ => true
  | _ => false
  end.

(** A property of the instance, once there is one. *)
Definition holds (P : World -> Prop) (p : Program) : Prop :=
  match p with
  | Some w => P w
  | None => True
  end.

(** Counting the effects of one kind in a trace. *)
Definition count (f : Effect -> bool) (tr : list Effect) : nat :=
  List.length (filter f tr).

Definition is_timeout (e : Effect) : bool :=
  match e with SetTimeout _ => true | _ => false end.

Definition is_post (e : Effect) : bool :=
  match e with AxiosPost _ => true | _ => false end.

Definition is_immediate (e : Effect) : bool :=
  match e with LoggerDebug ScheduledImmediate => true | _ => false end.

(** A burst of calls of [log], each with its clock reading. *)
Definition burst (calls : list (Z * LogUnifyEvent)) : list Action :=
  map (fun c => CallLog (fst c) (snd c)) calls.

(** ** Invariants *)

(** Between two turns of the event loop: either a cycle is running, the
    flag is set and exactly one request is awaited, or no cycle is running,
    the flag is clear and nothing is awaited. *)
Definition cycle_state (w : World) : Prop :=
  (isSendingEvents (self w) = true
   /\ exists t, inflight w = [t] /\ 0 <= attemptsLeft t < maxAttempts)
  \/ (isSendingEvents (self w) = false /\ inflight w = []).

Definition bounded (w : World) : Prop := len (events (self w)) <= maxUnsentEvents.



(** ** Intermediate states of the methods *)

(** What [log] leaves in the buffer: the new event at the tail, then the
    head removed when the bound is passed. *)
Definition appended (l : list LogUnifyEvent) (event : LogUnifyEvent) : list LogUnifyEvent :=
  if maxUnsentEvents <? len (l ++ [event]) then splice0 1 (l ++ [event]) else l ++ [event].

Definition cap : nat := Z.to_nat maxUnsentEvents.

(** The last [cap] elements of a list, in order. *)
Definition newest {A : Type} (l : list A) : list A :=
  skipn (List.length l - cap) l.

(** The world at the size test of [log], for an event with [toObject]. *)
Definition before_trigger (now : Z) (event : LogUnifyEvent) (payload : JSON.value)
  (w : World) : World :=
  schedule now (emit (LoggerDebug (LoggedEvent payload)) (purge (push event w))).

(** The world that [resume] leaves after a delivered batch, before the
    test on [attemptsLeft]. *)
Definition drained (t : Task) (w : World) : World :=
  update (fun o => set_events (splice0 (len (bulk t)) (events o)) o)
    (emit (LoggerDebug (SentEvents (len (bulk t)))) w).

(** ** Scenarios *)

Definition click : LogUnifyEvent :=
  mkEvent "click" "shop" [x0a; x0b] (Some (JSON.Obj [("id", JSON.Str "7")])).

Definition purchase : LogUnifyEvent :=
  mkEvent "purchase" "shop" [x2a] (Some (JSON.Obj [])).

(** An event with the three declared methods only. *)
Definition declared_only : LogUnifyEvent :=
  mkEvent "click" "shop" [x0a; x0b] None.

(** A new instance with [minBatchSize = 2] after one call of [log]. *)
Definition one_buffered : World :=
  world_of (log 1000000 click
              (setup (mkOptions "key" None None (Some 2) None) boot)).

(** The same, after a second call, which reaches [minBatchSize]. *)
Definition two_buffered : World := world_of (log 1000001 click one_buffered).

(** A cycle on [one_buffered] whose three attempts are rejected. *)
Definition thrice_rejected : World :=
  settle 0 (Rejected Timeout)
    (settle 0 (Rejected NetworkError)
       (settle 0 (Rejected (BadStatus 500)) (outer_loop one_buffered))).

(** A configured instance and two options for a second [setup]: one with
    an empty key, one with a new key; both carry [batchInterval] only. *)
Definition first_options : Options :=
  mkOptions "key-1" (Some "https://collector.example/bulk") (Some 2000) (Some 4) None.

Definition configured_once : World := setup first_options boot.

Definition empty_key_options : Options :=
  mkOptions EmptyString None (Some 10000) None None.

Definition new_key_options : Options :=
  mkOptions "key-2" None (Some 10000) None None.

(** The size trigger starts a cycle, then the timer fires during it. *)
Definition overlapping_triggers : list Action :=
  [ CallSetup (mkOptions "key" None None (Some 2) None);
    CallLog 1000000 click;
    CallLog 1000001 click;
    TimerFires 0 ].

(** One call more than the buffer can hold. *)
Definition first_call : Z * LogUnifyEvent :=
  (1000000, mkEvent "first" "shop" [x01] (Some (JSON.Obj []))).

Definition later_calls : list (Z * LogUnifyEvent) :=
  repeat (1000001, mkEvent "later" "shop" [x02] (Some (JSON.Obj []))) cap.

(** Fifty-one events are buffered, the timer fires, and the first batch of
    fifty is rejected twice and accepted on the third attempt. *)
Definition delivered_on_last_attempt : list Action :=
  CallSetup (mkOptions "key" None None (Some 100) None)
    :: burst (repeat (1000000, click) 50 ++ [(1000000, purchase)])
    ++ [ TimerFires 0;
         Settles 0 (Rejected NetworkError);
         Settles 0 (Rejected (BadStatus 503));
         Settles 0 Resolved ].

(** Default options: a first call of [log] arms the timer, the timer
    fires five seconds later and the flush delivers the event. *)
Definition flushed_once : list Action :=
  [ CallSetup (mkOptions "key" None None None None);
    CallLog 1000000 click;
    TimerFires 0;
    Settles 0 Resolved ].

(** With [minBatchSize = 1] the first call of [log] posts a batch. *)
Definition first_attempt_posted : list Action :=
  [ CallSetup (mkOptions "key" None None (Some 1) None);
    CallLog 1000000 click ].

(** Single quotes stand for double quotes in expected JSON texts. *)
Definition requote (s : string) : string :=
  string_of_list_ascii
    (map (fun c => if Ascii.eqb c "'"%char then JSON.dquote else c)
         (list_ascii_of_string s)).

(** ** Further observations *)

Definition is_error (e : Effect) : bool :=
  match e with LoggerError _ => true | _ => false end.

(** The events passed to [log] in a list of turns, in the order of the
    calls. *)
Definition logged (acts : list Action) : list LogUnifyEvent :=
  flat_map (fun a => match a with CallLog _ event => [event] | _ => [] end) acts.

(** The configuration fields of an instance. *)
Definition config_of (o : LogUnifyLogger) : string * Z * Z * string * Level :=
  (receiverURL o, batchInterval o, minBatchSize o, apiKey o, loggerLevel o).

(** The batches of a flush cycle in which every request is accepted at
    once: the first [maxBulkSize] events, then the same on what the splice
    leaves. [fuel] bounds the number of batches. *)
Fixpoint batches_upto (fuel : nat) (l : list LogUnifyEvent) : list (list LogUnifyEvent) :=
  match fuel with
  | O => []
  | S fuel' =>
      match l with
      | [] => []
      | _ => slice0 maxBulkSize l
             :: batches_upto fuel' (splice0 (len (slice0 maxBulkSize l)) l)
      end
  end.

Definition batches (l : list LogUnifyEvent) : list (list LogUnifyEvent) :=
  batches_upto (List.length l) l.

(** [n] requests in a row accepted. *)
Definition accept_all (n : nat) (w : World) : World :=
  Nat.iter n (settle 0 Resolved) w.

(** The batch of a task and of a posted request is not empty and has at
    most [maxBulkSize] events. *)
Definition sized_batch (b : list LogUnifyEvent) : Prop :=
  b <> [] /\ len b <= maxBulkSize.

Definition sized_post (e : Effect) : Prop :=
  match e with
  | AxiosPost r =>
      exists (o : LogUnifyLogger) (b : list LogUnifyEvent),
        r = request_of o b /\ sized_batch b
  | _ => True
  end.

Definition sized (w : World) : Prop :=
  Forall sized_post (trace w) /\ Forall (fun t => sized_batch (bulk t)) (inflight w).

(** No falsy value in the three optional settings. *)
Definition settings_truthy (w : World) : Prop :=
  batchInterval (self w) <> 0
  /\ minBatchSize (self w) <> 0
  /\ receiverURL (self w) <> EmptyString.

(** While the overflow branch has never run, the batch awaited is at the
    head of the buffer. *)
Definition batch_at_head (w : World) : Prop :=
  count is_error (trace w) = 0%nat ->
  forall t, In t (inflight w) -> exists rest, events (self w) = bulk t ++ rest.

(** ** Further scenarios *)

Definition default_options : Options := mkOptions "key" None None None None.

(** A burst that fills the buffer of a new instance; the size trigger has
    posted the first ten events, and their request is still awaited. *)
Definition full_in_flight : World :=
  fold_left (fun w c => world_of (log (fst c) (snd c) w)) later_calls
    (new_world default_options).

Definition later_event : LogUnifyEvent :=
  mkEvent "later" "shop" [x02] (Some (JSON.Obj [])).

(** * Properties *)

(** ** The singleton life cycle *)

Lemma step_none (a : Action) (p : Program) :
  step a p = None <-> p = None /\ is_setup a = false.
Proof.
  destruct a, p; simpl; split; intros H; try discriminate; try tauto;
    destruct H; discriminate.
Qed.

Lemma run_none (acts : list Action) :
  forall p, run acts p = None <-> p = None /\ existsb is_setup acts = false.
Proof.
  induction acts as [|a acts IH]; intros p; simpl.
  - tauto.
  - unfold run in *; simpl. rewrite IH, step_none, orb_false_iff. tauto.
Qed.

(** C9. [get] throws the "uninitialized" error exactly when no call of
    [setup] came before it, and otherwise returns the instance that the
    static field holds; [setup] constructs the instance when the field is
    empty, reconfigures the instance it holds otherwise (the buffer, the
    flag, the schedule and what is pending stay those of that instance),
    and in both cases returns what the field then holds. *)
Theorem get_after_setup :
  (forall acts : list Action,
      get (run acts boot) = inl (PlainError uninitialized)
      <-> existsb is_setup acts = false)
  /\ (forall acts : list Action,
      (exists w, get (run acts boot) = inr w) <-> existsb is_setup acts = true)
  /\ (forall w : World, get (Some w) = inr w)
  /\ (forall options : Options, setup options boot = new_world options)
  /\ (forall (options : Options) (w : World),
        let w' := setup options (Some w) in
        self w' = configure options (self w)
        /\ events (self w') = events (self w)
        /\ isSendingEvents (self w') = isSendingEvents (self w)
        /\ lastScheduled (self w') = lastScheduled (self w)
        /\ timers w' = timers w /\ inflight w' = inflight w /\ trace w' = trace w)
  /\ (forall (options : Options) (p : Program),
        get (step (CallSetup options) p) = inr (setup options p)).
Proof.
  split; [|split; [|split; [|split; [|split]]]].
  - intros acts. destruct (run acts boot) as [w|] eqn:E; simpl.
    + split; [discriminate|]. intros H.
      assert (N : run acts boot = None) by (apply run_none; split; [reflexivity|exact H]).
      congruence.
    + apply run_none in E. destruct E as [_ E]. tauto.
  - intros acts. destruct (run acts boot) as [w|] eqn:E; simpl.
    + split; [|intros _; exists w; reflexivity]. intros _.
      destruct (existsb is_setup acts) eqn:S; [reflexivity|].
      assert (N : run acts boot = None) by (apply run_none; split; [reflexivity|exact S]).
      congruence.
    + apply run_none in E. destruct E as [_ E]. rewrite E.
      split; [intros [w H]; discriminate|discriminate].
  - reflexivity.
  - reflexivity.
  - intros options w. simpl. repeat split.
  - reflexivity.
Qed.

(** ** Reconfiguration *)

(** C5, as the specification states it, fails: the field [apiKey] of the
    new options replaces the old key even when it is the empty string,
    which is not truthy. *)
Lemma setup_again_overwrites_apiKey :
  apiKey (self configured_once) = "key-1"
  /\ opt_apiKey empty_key_options = EmptyString
  /\ apiKey (self (setup empty_key_options (Some configured_once)))
     <> apiKey (self configured_once).
Proof.
  split; [reflexivity|]. split; [reflexivity|]. simpl. discriminate.
Qed.

(** C5, amended. A second [setup] whose options carry the key [k] and, of
    the optional fields, only [batchInterval = 10000] sets [batchInterval]
    to 10000 and [apiKey] to [k], and keeps [receiverURL] and
    [minBatchSize]. In general [apiKey] is always taken from the new
    options; each of [receiverURL], [batchInterval] and [minBatchSize] is
    taken from them when present and truthy and kept otherwise;
    [enableDebugLog] is not read again. *)
Theorem setup_again_merges :
  (forall (first : Options) (k : string),
      let w := setup first boot in
      let w' := setup (mkOptions k None (Some 10000) None None) (Some w) in
      batchInterval (self w') = 10000
      /\ apiKey (self w') = k
      /\ receiverURL (self w') = receiverURL (self w)
      /\ minBatchSize (self w') = minBatchSize (self w))
  /\ (forall (options : Options) (w : World),
        let w' := setup options (Some w) in
        apiKey (self w') = opt_apiKey options
        /\ loggerLevel (self w') = loggerLevel (self w)
        /\ (forall s, opt_receiverURL options = Some s -> s <> EmptyString ->
                      receiverURL (self w') = s)
        /\ (opt_receiverURL options = None \/ opt_receiverURL options = Some EmptyString ->
            receiverURL (self w') = receiverURL (self w))
        /\ (forall n, opt_batchInterval options = Some n -> n <> 0 ->
                      batchInterval (self w') = n)
        /\ (opt_batchInterval options = None \/ opt_batchInterval options = Some 0 ->
            batchInterval (self w') = batchInterval (self w))
        /\ (forall n, opt_minBatchSize options = Some n -> n <> 0 ->
                      minBatchSize (self w') = n)
        /\ (opt_minBatchSize options = None \/ opt_minBatchSize options = Some 0 ->
            minBatchSize (self w') = minBatchSize (self w))).
Proof.
  split.
  - intros first k. simpl. repeat split.
  - intros options w. simpl. repeat split.
    + intros s E N. rewrite E. destruct s; [congruence|reflexivity].
    + intros [E|E]; rewrite E; reflexivity.
    + intros n E N. rewrite E. simpl. destruct (Z.eqb_spec n 0); [congruence|reflexivity].
    + intros [E|E]; rewrite E; reflexivity.
    + intros n E N. rewrite E. simpl. destruct (Z.eqb_spec n 0); [congruence|reflexivity].
    + intros [E|E]; rewrite E; reflexivity.
Qed.

Lemma setup_again_merges_example :
  batchInterval (self (setup new_key_options (Some configured_once))) = 10000
  /\ apiKey (self (setup new_key_options (Some configured_once))) = "key-2"
  /\ receiverURL (self (setup new_key_options (Some configured_once)))
     = "https://collector.example/bulk"
  /\ minBatchSize (self (setup new_key_options (Some configured_once))) = 4.
Proof.
  exact (proj1 setup_again_merges first_options "key-2").
Defined.

(** ** Proof automation for the straight-line methods *)

Ltac case_if :=
  match goal with
  | |- context [if ?b then _ else _] => destruct b eqn:?
  end.

Ltac unfold_methods :=
  unfold trigger, schedule, purge, push, sendEvents, resume, inner_loop,
    after_attempts, outer_loop, give_up_cycle, attempt, makeRequest_settle,
    makeRequest_call, arm, suspend, emit, update in *.

(** ** Mutual exclusion of flush cycles *)

Lemma cycle_state_running (w : World) (t : Task) :
  isSendingEvents (self w) = true -> inflight w = [t] ->
  0 <= attemptsLeft t < maxAttempts -> cycle_state w.
Proof. intros F I A. left. split; [exact F|]. exists t. split; assumption. Qed.

Lemma cycle_state_idle (w : World) :
  isSendingEvents (self w) = false -> inflight w = [] -> cycle_state w.
Proof. intros F I. right. split; assumption. Qed.

Lemma outer_loop_cycle_state (w : World) :
  isSendingEvents (self w) = true -> inflight w = [] -> cycle_state (outer_loop w).
Proof.
  intros F I. unfold outer_loop. case_if.
  - change (0 <? maxAttempts) with true. cbv iota.
    eapply cycle_state_running; simpl; [exact F|rewrite I; reflexivity|].
    simpl. unfold maxAttempts. lia.
  - apply cycle_state_idle; simpl; [reflexivity|exact I].
Qed.

Lemma give_up_cycle_state (w : World) :
  inflight w = [] -> cycle_state (give_up_cycle w).
Proof. intros I. apply cycle_state_idle; simpl; [reflexivity|exact I]. Qed.

Lemma resume_cycle_state (r : Outcome) (t : Task) (w : World) :
  isSendingEvents (self w) = true -> inflight w = [] ->
  0 <= attemptsLeft t < maxAttempts -> cycle_state (resume r t w).
Proof.
  intros F I A. unfold resume. destruct r; simpl.
  - unfold after_attempts. case_if.
    + apply give_up_cycle_state. exact I.
    + apply outer_loop_cycle_state; simpl; assumption.
  - unfold inner_loop. case_if.
    + eapply cycle_state_running; simpl; [exact F|rewrite I; reflexivity|].
      simpl. apply Z.ltb_lt in Heqb. lia.
    + unfold after_attempts. case_if.
      * apply give_up_cycle_state. exact I.
      * apply Z.ltb_ge in Heqb. apply Z.eqb_neq in Heqb0. lia.
Qed.

Lemma sendEvents_cycle_state (w : World) :
  cycle_state w -> cycle_state (sendEvents w).
Proof.
  intros H. unfold sendEvents. case_if; [exact H|].
  destruct H as [[F _]|[_ I]]; [congruence|].
  apply outer_loop_cycle_state; simpl; [reflexivity|exact I].
Qed.

Lemma cycle_state_frame (w w' : World) :
  isSendingEvents (self w') = isSendingEvents (self w) ->
  inflight w' = inflight w -> cycle_state w -> cycle_state w'.
Proof. unfold cycle_state. intros -> ->. tauto. Qed.

Lemma log_cycle_state (now : Z) (event : LogUnifyEvent) (w : World) :
  cycle_state w -> cycle_state (world_of (log now event w)).
Proof.
  intros H. unfold log.
  assert (H1 : cycle_state (purge (push event w))).
  { eapply cycle_state_frame; [| |exact H]; unfold purge; case_if; reflexivity. }
  destruct (toObject event) as [payload|]; simpl; [|exact H1].
  unfold trigger. set (w2 := schedule _ _).
  assert (H2 : cycle_state w2).
  { eapply cycle_state_frame; [| |exact H1]; unfold w2, schedule; case_if; reflexivity. }
  case_if; [|exact H2].
  apply sendEvents_cycle_state. eapply cycle_state_frame; [| |exact H2]; reflexivity.
Qed.

Lemma fire_cycle_state (k : nat) (w : World) :
  cycle_state w -> cycle_state (fire k w).
Proof.
  intros H. unfold fire. destruct (nth_error (timers w) k); [|exact H].
  apply sendEvents_cycle_state. eapply cycle_state_frame; [| |exact H]; reflexivity.
Qed.

Lemma settle_cycle_state (k : nat) (r : Outcome) (w : World) :
  cycle_state w -> cycle_state (settle k r w).
Proof.
  intros H. unfold settle. destruct (nth_error (inflight w) k) as [t|] eqn:E; [|exact H].
  destruct H as [[F [t' [I A]]]|[_ I]].
  - rewrite I in E. destruct k as [|k]; simpl in E.
    + injection E as <-. apply resume_cycle_state; simpl; [exact F| |exact A].
      rewrite I. reflexivity.
    + destruct k; discriminate.
  - rewrite I in E. destruct k; discriminate.
Qed.

Lemma step_cycle_state (a : Action) (p : Program) :
  holds cycle_state p -> holds cycle_state (step a p).
Proof.
  destruct a as [options|now event|k|k r], p as [w|]; simpl; auto.
  - intros _. apply cycle_state_idle; reflexivity.
  - apply log_cycle_state.
  - apply fire_cycle_state.
  - apply settle_cycle_state.
Qed.

Lemma run_holds (P : World -> Prop) :
  (forall a p, holds P p -> holds P (step a p)) ->
  forall acts p, holds P p -> holds P (run acts p).
Proof.
  intros S acts. induction acts as [|a acts IH]; intros p H; [exact H|].
  unfold run in *. simpl. apply IH, S, H.
Qed.

(** C7. In every run of the event loop, between any two turns, at most one
    request is awaited, and the flag is set exactly when a cycle is
    suspended on one; a call of [sendEvents] that finds the flag set
    changes nothing: it posts nothing, awaits nothing and leaves no trace. *)
Theorem one_flush_cycle_at_a_time :
  forall (acts : list Action) (w : World),
    run acts boot = Some w ->
    (List.length (inflight w) <= 1)%nat
    /\ (isSendingEvents (self w) = true <-> inflight w <> [])
    /\ (isSendingEvents (self w) = true -> sendEvents w = w)
    /\ (forall k, isSendingEvents (self w) = true ->
                  inflight (fire k w) = inflight w /\ trace (fire k w) = trace w).
Proof.
  intros acts w E.
  assert (H : holds cycle_state (run acts boot)).
  { apply run_holds; [exact step_cycle_state|exact I]. }
  rewrite E in H. simpl in H.
  split; [|split; [|split]].
  - destruct H as [[_ [t [-> _]]]|[_ ->]]; simpl; lia.
  - destruct H as [[F [t [-> _]]]|[F ->]]; split; congruence.
  - intros F. unfold sendEvents. rewrite F. reflexivity.
  - intros k F. unfold fire. destruct (nth_error (timers w) k); [|split; reflexivity].
    unfold sendEvents. simpl. rewrite F. split; reflexivity.
Qed.

Lemma one_flush_cycle_at_a_time_witness :
  exists w : World,
    run overlapping_triggers boot = Some w
    /\ isSendingEvents (self w) = true
    /\ (List.length (inflight w) <= 1)%nat
    /\ sendEvents w = w.
Proof.
  eexists. split; [reflexivity|]. split; [reflexivity|].
  destruct (one_flush_cycle_at_a_time overlapping_triggers _ eq_refl) as [L [_ [N _]]].
  split; [exact L|]. apply N. reflexivity.
Defined.

(** ** The bounded buffer *)

Lemma sendEvents_events (w : World) : events (self (sendEvents w)) = events (self w).
Proof. unfold_methods. repeat case_if; reflexivity. Qed.

Lemma log_events (now : Z) (event : LogUnifyEvent) (w : World) :
  events (self (world_of (log now event w))) = appended (events (self w)) event.
Proof.
  unfold log, appended.
  assert (E : events (self (purge (push event w)))
              = if maxUnsentEvents <? len (events (self w) ++ [event])
                then splice0 1 (events (self w) ++ [event])
                else events (self w) ++ [event]).
  { unfold purge, push, update; simpl. case_if; reflexivity. }
  destruct (toObject event); simpl; [|exact E].
  unfold trigger. case_if; [rewrite sendEvents_events|]; unfold schedule; case_if; exact E.
Qed.

Lemma fire_events (k : nat) (w : World) : events (self (fire k w)) = events (self w).
Proof.
  unfold fire. destruct (nth_error (timers w) k); [|reflexivity].
  rewrite sendEvents_events. reflexivity.
Qed.

Lemma resume_events (r : Outcome) (t : Task) (w : World) :
  events (self (resume r t w))
  = match r with
    | Resolved => splice0 (len (bulk t)) (events (self w))
    | Rejected _ => events (self w)
    end.
Proof. destruct r; unfold_methods; simpl; repeat case_if; reflexivity. Qed.

Section Eviction.

Context {A : Type}.
Variable size : nat.

(** Dropping the head of a full window slides the window by one. *)
Lemma window_slides (l : list A) (x : A) :
  (size <= List.length l)%nat ->
  skipn 1 (skipn (List.length l - size) l ++ [x])
  = skipn (List.length (l ++ [x]) - size) (l ++ [x]).
Proof.
  intros H. rewrite length_app. simpl List.length.
  replace (List.length l + 1 - size)%nat with (1 + (List.length l - size))%nat by lia.
  rewrite <- skipn_skipn. f_equal.
  rewrite skipn_app.
  replace (List.length l - size - List.length l)%nat with 0%nat by lia.
  reflexivity.
Qed.

Lemma window_grows (l : list A) (x : A) :
  (List.length l < size)%nat ->
  skipn (List.length l - size) l ++ [x]
  = skipn (List.length (l ++ [x]) - size) (l ++ [x]).
Proof.
  intros H. rewrite length_app. simpl List.length.
  replace (List.length l - size)%nat with 0%nat by lia.
  replace (List.length l + 1 - size)%nat with 0%nat by lia.
  reflexivity.
Qed.

Lemma window_length (l : list A) :
  (List.length (skipn (List.length l - size) l) <= size)%nat.
Proof. rewrite length_skipn. lia. Qed.

End Eviction.

Lemma cap_spec : Z.of_nat cap = maxUnsentEvents.
Proof. reflexivity. Qed.

Lemma appended_newest (l : list LogUnifyEvent) (event : LogUnifyEvent) :
  appended (newest l) event = newest (l ++ [event]).
Proof.
  unfold appended, newest, splice0, len.
  change (Z.to_nat 1) with 1%nat.
  pose proof cap_spec as C. pose proof (window_length cap l) as W.
  generalize dependent cap. intros c C W.
  rewrite length_app, length_skipn in *. simpl List.length.
  destruct (Z.ltb_spec maxUnsentEvents
              (Z.of_nat (List.length l - (List.length l - c) + 1))) as [H|H].
  - apply window_slides. lia.
  - apply window_grows. lia.
Qed.

Lemma appended_bounded (l : list LogUnifyEvent) (event : LogUnifyEvent) :
  len l <= maxUnsentEvents -> len (appended l event) <= maxUnsentEvents.
Proof.
  unfold appended, splice0, len. change (Z.to_nat 1) with 1%nat.
  intros H. destruct (Z.ltb_spec maxUnsentEvents (Z.of_nat (List.length (l ++ [event])))) as [G|G].
  - rewrite length_skipn, length_app. simpl List.length. lia.
  - exact G.
Qed.

Lemma step_bounded (a : Action) (p : Program) :
  holds bounded p -> holds bounded (step a p).
Proof.
  destruct a as [options|now event|k|k r], p as [w|]; simpl; auto; unfold bounded.
  - intros _. unfold len, maxUnsentEvents. simpl. lia.
  - rewrite log_events. apply appended_bounded.
  - rewrite fire_events. auto.
  - unfold settle. destruct (nth_error (inflight w) k) as [t|]; [|auto].
    rewrite resume_events. simpl. destruct r; [|auto].
    unfold splice0, len. rewrite length_skipn. lia.
Qed.

Lemma run_app (a b : list Action) (p : Program) : run (a ++ b) p = run b (run a p).
Proof. unfold run. apply fold_left_app. Qed.

Lemma burst_events (options : Options) (calls : list (Z * LogUnifyEvent)) :
  exists w : World,
    run (CallSetup options :: burst calls) boot = Some w
    /\ events (self w) = newest (map snd calls).
Proof.
  induction calls as [|c calls IH] using rev_ind.
  - eexists. split; reflexivity.
  - destruct IH as [w [R E]].
    exists (world_of (log (fst c) (snd c) w)). split.
    + unfold burst in *. rewrite map_app, app_comm_cons, run_app, R. reflexivity.
    + rewrite log_events, E, map_app. apply appended_newest.
Qed.

(** C3. In every run the buffer holds at most [maxUnsentEvents] events. A
    call of [log] on a full buffer leaves the buffer without its head and
    with the new event at its tail, and on a buffer that is not full it
    only adds the event. After a burst of calls of [log] on a new instance
    the buffer holds the newest [maxUnsentEvents] events of the burst in
    the order of the calls: after [maxUnsentEvents + 1] calls, all but the
    first. The overflow raises nothing: [log] completes normally whenever
    the event has [toObject], full buffer or not. *)
Theorem buffer_bounded_drop_oldest :
  (forall (acts : list Action) (w : World),
      run acts boot = Some w -> len (events (self w)) <= maxUnsentEvents)
  /\ (forall (now : Z) (event oldest : LogUnifyEvent) (rest : list LogUnifyEvent) (w : World),
        events (self w) = oldest :: rest ->
        len (events (self w)) = maxUnsentEvents ->
        events (self (world_of (log now event w))) = rest ++ [event])
  /\ (forall (now : Z) (event : LogUnifyEvent) (w : World),
        len (events (self w)) < maxUnsentEvents ->
        events (self (world_of (log now event w))) = events (self w) ++ [event])
  /\ (forall (options : Options) (first : Z * LogUnifyEvent)
             (calls : list (Z * LogUnifyEvent)),
        len calls = maxUnsentEvents ->
        exists w : World,
          run (CallSetup options :: burst (first :: calls)) boot = Some w
          /\ events (self w) = map snd calls)
  /\ (forall (now : Z) (event : LogUnifyEvent) (payload : JSON.value) (w : World),
        toObject event = Some payload -> exists w', log now event w = Normal w').
Proof.
  split; [|split; [|split; [|split]]].
  - intros acts w E.
    assert (H : holds bounded (run acts boot)).
    { apply run_holds; [exact step_bounded|exact I]. }
    rewrite E in H. exact H.
  - intros now event oldest rest w E L. rewrite log_events. unfold appended.
    rewrite E in *. unfold len in *. rewrite length_app. simpl List.length in *.
    destruct (Z.ltb_spec maxUnsentEvents (Z.of_nat (S (List.length rest) + 1))) as [G|G].
    + reflexivity.
    + lia.
  - intros now event w L. rewrite log_events. unfold appended.
    unfold len in *. rewrite length_app. simpl List.length.
    destruct (Z.ltb_spec maxUnsentEvents (Z.of_nat (List.length (events (self w)) + 1))) as [G|G].
    + lia.
    + reflexivity.
  - intros options first calls L.
    destruct (burst_events options (first :: calls)) as [w [R E]].
    exists w. split; [exact R|]. rewrite E. unfold newest.
    pose proof cap_spec as C. generalize dependent cap. intros c C.
    unfold len in L. rewrite length_map. simpl List.length.
    replace (S (List.length calls) - c)%nat with 1%nat by lia.
    reflexivity.
  - intros now event payload w T. unfold log. rewrite T. eexists. reflexivity.
Qed.

Lemma buffer_bounded_drop_oldest_witness :
  len later_calls = maxUnsentEvents
  /\ exists w : World,
      run (CallSetup (mkOptions "key" None None None None)
             :: burst (first_call :: later_calls)) boot = Some w
      /\ events (self w) = map snd later_calls.
Proof.
  split; [vm_compute; reflexivity|].
  apply (proj1 (proj2 (proj2 (proj2 buffer_bounded_drop_oldest)))).
  vm_compute; reflexivity.
Defined.

(** ** What one call of [log] does *)

Lemma count_app (f : Effect -> bool) (a b : list Effect) :
  count f (a ++ b) = (count f a + count f b)%nat.
Proof. unfold count. rewrite filter_app, length_app. reflexivity. Qed.

Ltac count_trace :=
  simpl trace; repeat rewrite count_app; unfold count; simpl filter;
  simpl List.length; try reflexivity; try lia.

Lemma sendEvents_counts (w : World) :
  count is_timeout (trace (sendEvents w)) = count is_timeout (trace w)
  /\ count is_immediate (trace (sendEvents w)) = count is_immediate (trace w)
  /\ timers (sendEvents w) = timers w
  /\ lastScheduled (self (sendEvents w)) = lastScheduled (self w)
  /\ minBatchSize (self (sendEvents w)) = minBatchSize (self w).
Proof.
  unfold_methods. repeat case_if; simpl; repeat split; count_trace.
Qed.


Lemma before_trigger_facts (now : Z) (event : LogUnifyEvent) (payload : JSON.value)
  (w : World) :
  let w2 := before_trigger now event payload w in
  events (self w2) = appended (events (self w)) event
  /\ minBatchSize (self w2) = minBatchSize (self w)
  /\ isSendingEvents (self w2) = isSendingEvents (self w)
  /\ inflight w2 = inflight w
  /\ count is_immediate (trace w2) = count is_immediate (trace w)
  /\ count is_post (trace w2) = count is_post (trace w).
Proof.
  unfold before_trigger, appended. unfold_methods. simpl.
  repeat case_if; simpl; repeat split; count_trace.
Qed.

Lemma log_normal (now : Z) (event : LogUnifyEvent) (payload : JSON.value) (w : World) :
  toObject event = Some payload ->
  log now event w = Normal (trigger (before_trigger now event payload w)).
Proof. intros T. unfold log. rewrite T. reflexivity. Qed.

Lemma appended_nonempty (l : list LogUnifyEvent) (event : LogUnifyEvent) :
  appended l event <> [].
Proof.
  unfold appended, splice0, len. change (Z.to_nat 1) with 1%nat.
  destruct (Z.ltb_spec maxUnsentEvents (Z.of_nat (List.length (l ++ [event])))) as [G|G].
  - destruct l as [|x [|y l]]; simpl in *; discriminate.
  - destruct l; discriminate.
Qed.



(** ** The call of [toObject] *)

Lemma sendEvents_trace_grows (w : World) (e : Effect) :
  In e (trace w) -> In e (trace (sendEvents w)).
Proof.
  intros H. unfold_methods.
  repeat case_if; simpl; repeat rewrite in_app_iff; tauto.
Qed.

Lemma trigger_trace_grows (w : World) (e : Effect) :
  In e (trace w) -> In e (trace (trigger w)).
Proof.
  intros H. unfold trigger. case_if; [|exact H].
  apply sendEvents_trace_grows. simpl. rewrite in_app_iff. tauto.
Qed.

Lemma schedule_trace_grows (now : Z) (w : World) (e : Effect) :
  In e (trace w) -> In e (trace (schedule now w)).
Proof.
  intros H. unfold schedule. case_if; [|exact H].
  simpl. repeat rewrite in_app_iff. tauto.
Qed.

(** C10. [log] calls [toObject] on every event: when the event has it, its
    result is handed to [logger.debug]; when the event has only the methods
    of [LogUnifyEvent], [log] throws a [TypeError], with the event already
    in the buffer (and the oldest one purged if the bound was passed) and
    before anything is scheduled or sent: no timer is armed, the time of
    the last scheduling and the flag are unchanged, nothing is posted or
    awaited. *)
Theorem log_calls_toObject :
  forall (now : Z) (event : LogUnifyEvent) (w : World),
    (forall payload : JSON.value,
        toObject event = Some payload ->
        exists w', log now event w = Normal w'
                   /\ In (LoggerDebug (LoggedEvent payload)) (trace w'))
    /\ (toObject event = None ->
        exists w',
          log now event w = Throw not_a_function w'
          /\ events (self w') = appended (events (self w)) event
          /\ timers w' = timers w
          /\ lastScheduled (self w') = lastScheduled (self w)
          /\ isSendingEvents (self w') = isSendingEvents (self w)
          /\ inflight w' = inflight w
          /\ count is_timeout (trace w') = count is_timeout (trace w)
          /\ count is_immediate (trace w') = count is_immediate (trace w)
          /\ count is_post (trace w') = count is_post (trace w)
          /\ (trace w' = trace w
              \/ trace w' = trace w ++ [LoggerError (ReachedMaxUnsent maxUnsentEvents)])).
Proof.
  intros now event w. split.
  - intros payload T. rewrite (log_normal _ _ _ _ T). eexists. split; [reflexivity|].
    apply trigger_trace_grows, schedule_trace_grows. simpl.
    rewrite in_app_iff. right. left. reflexivity.
  - intros T. unfold log. rewrite T. eexists. split; [reflexivity|].
    unfold appended, purge, push, update, emit. simpl.
    case_if; simpl; repeat split; try count_trace; tauto.
Qed.

Lemma log_calls_toObject_witness :
  exists w',
    log 1000001 declared_only one_buffered = Throw not_a_function w'
    /\ events (self w') = [click; declared_only]
    /\ timers w' = timers one_buffered
    /\ isSendingEvents (self w') = false
    /\ inflight w' = [].
Proof.
  destruct (proj2 (log_calls_toObject 1000001 declared_only one_buffered) eq_refl)
    as [w' [L [E [Ti [_ [F [I _]]]]]]].
  exists w'. split; [exact L|]. split; [exact E|]. split; [exact Ti|].
  split; [exact F|exact I].
Defined.

(** ** The scheduler *)



(** C4 at a failing input. With the default [batchInterval] of 5000 ms, a
    first call of [log] arms the timer; the timer fires and the flush
    empties the buffer; a call of [log] six seconds after the first one,
    more than [batchInterval] after the last scheduling, arms no timer and
    does not record the time: its event stays in the buffer with nothing
    pending. *)
Theorem stale_schedule_not_rearmed :
  exists w w' : World,
    run flushed_once boot = Some w
    /\ run (flushed_once ++ [CallLog 1006000 click]) boot = Some w'
    /\ batchInterval (self w) = 5000
    /\ lastScheduled (self w) = seconds 1000000
    /\ batchInterval (self w) < 1006000 - 1000000
    /\ due 1006000 (self w) = false
    /\ timers w = [] /\ timers w' = []
    /\ count is_timeout (trace w') = count is_timeout (trace w)
    /\ lastScheduled (self w') = seconds 1000000
    /\ events (self w') = [click]
    /\ isSendingEvents (self w') = false /\ inflight w' = [].
Proof.
  simpl. eexists. eexists. split; [reflexivity|]. split; [reflexivity|].
  repeat split. 
Qed.

(** ** The flush cycle *)

(** A success before the last attempt goes back to the head of the outer
    loop; a success on the last attempt, which runs with [attemptsLeft]
    already at 0, takes the exit of the exhausted batch. *)
Lemma resume_delivered (t : Task) (w : World) :
  events (self (resume Resolved t w)) = splice0 (len (bulk t)) (events (self w))
  /\ (attemptsLeft t <> 0 -> resume Resolved t w = outer_loop (drained t w))
  /\ (attemptsLeft t = 0 -> resume Resolved t w = give_up_cycle (drained t w)).
Proof.
  split; [apply (resume_events Resolved)|].
  unfold resume, drained, after_attempts. simpl. split; intros H.
  - apply Z.eqb_neq in H. rewrite H. reflexivity.
  - rewrite H. reflexivity.
Qed.

(** C1 at a failing input. The batch delivered on its third attempt is
    drained, but the cycle then ends as if the batch had failed: it logs
    the exhaustion, clears the flag and returns [false], with the
    fifty-first event still buffered and no request posted for it. *)
Theorem success_on_last_attempt_ends_cycle :
  exists w : World,
    run delivered_on_last_attempt boot = Some w
    /\ events (self w) = [purchase]
    /\ isSendingEvents (self w) = false
    /\ inflight w = []
    /\ count is_post (trace w) = 3%nat
    /\ skipn (List.length (trace w) - 3) (trace w)
       = [ LoggerDebug (SentEvents 50);
           LoggerDebug (RetriedButFailed 3);
           Returned (Some false) ].
Proof.
  eexists. split; [vm_compute; reflexivity|].
  repeat split; vm_compute; reflexivity.
Qed.

(** The three turns of a cycle on explicit worlds. *)
Lemma outer_loop_starts (o : LogUnifyLogger) (ts : list Z) (tr : list Effect) :
  events o <> [] ->
  outer_loop (mkWorld o ts [] tr)
  = mkWorld o ts [mkTask (slice0 maxBulkSize (events o)) (maxAttempts - 1)]
      (tr ++ [AxiosPost (request_of o (slice0 maxBulkSize (events o)))]).
Proof.
  intros N. unfold outer_loop. simpl self.
  destruct (events o) as [|x l] eqn:E; [congruence|].
  unfold len. simpl List.length.
  destruct (Z.ltb_spec 0 (Z.of_nat (S (List.length l)))) as [_|G]; [|lia].
  reflexivity.
Qed.

Lemma settle_rejected_retry (o : LogUnifyLogger) (ts : list Z) (tr : list Effect)
  (b : list LogUnifyEvent) (left : Z) (e : TransportError) :
  0 < left ->
  settle 0 (Rejected e) (mkWorld o ts [mkTask b left] tr)
  = mkWorld o ts [mkTask b (left - 1)]
      ((tr ++ [LoggerDebug (FailedToSend (len b) e)]) ++ [AxiosPost (request_of o b)]).
Proof.
  intros H. unfold settle, resume, inner_loop. simpl.
  apply Z.ltb_lt in H. rewrite H. reflexivity.
Qed.

Lemma settle_rejected_last (o : LogUnifyLogger) (ts : list Z) (tr : list Effect)
  (b : list LogUnifyEvent) (e : TransportError) :
  settle 0 (Rejected e) (mkWorld o ts [mkTask b 0] tr)
  = mkWorld (set_isSendingEvents false o) ts []
      (((tr ++ [LoggerDebug (FailedToSend (len b) e)])
          ++ [LoggerDebug (RetriedButFailed maxAttempts)])
         ++ [Returned (Some false)]).
Proof. reflexivity. Qed.

(** C2. From the head of the outer loop with a non-empty buffer and
    nothing awaited, three rejections in a row make exactly three posts of
    the same batch, after which the cycle logs the exhaustion, clears the
    flag and returns [false]; the buffer is what it was, no request is
    left pending and no exception leaves the cycle. A rejection never
    changes the buffer, whatever else runs in between. *)
Theorem exhausted_batch_ends_cycle :
  forall (w : World) (e1 e2 e3 : TransportError),
    events (self w) <> [] ->
    inflight w = [] ->
    let b := slice0 maxBulkSize (events (self w)) in
    let post := AxiosPost (request_of (self w) b) in
    let failed e := LoggerDebug (FailedToSend (len b) e) in
    let w' := settle 0 (Rejected e3)
                (settle 0 (Rejected e2) (settle 0 (Rejected e1) (outer_loop w))) in
    trace w' = trace w ++ [ post; failed e1; post; failed e2; post; failed e3;
                            LoggerDebug (RetriedButFailed maxAttempts);
                            Returned (Some false) ]
    /\ count is_post (trace w') = (count is_post (trace w) + Z.to_nat maxAttempts)%nat
    /\ events (self w') = events (self w)
    /\ isSendingEvents (self w') = false
    /\ inflight w' = []
    /\ (forall (k : nat) (e : TransportError) (v : World),
           events (self (settle k (Rejected e) v)) = events (self v)).
Proof.
  intros w e1 e2 e3 N I b post failed w'.
  assert (T : trace w' = trace w ++ [ post; failed e1; post; failed e2; post; failed e3;
                                      LoggerDebug (RetriedButFailed maxAttempts);
                                      Returned (Some false) ]
              /\ events (self w') = events (self w)
              /\ isSendingEvents (self w') = false
              /\ inflight w' = []).
  { unfold w', post, failed, b. clear w' post failed b.
    destruct w as [o ts fl tr]. simpl in *. subst fl.
    rewrite (outer_loop_starts o ts tr N).
    rewrite settle_rejected_retry by (unfold maxAttempts; lia).
    rewrite settle_rejected_retry by (unfold maxAttempts; lia).
    change (maxAttempts - 1 - 1 - 1) with 0.
    rewrite settle_rejected_last. simpl.
    repeat rewrite <- app_assoc. simpl. repeat split. }
  destruct T as [T [Ev [F In]]].
  split; [exact T|]. split; [|split; [exact Ev|split; [exact F|split; [exact In|]]]].
  - rewrite T, count_app. reflexivity.
  - intros k e v. unfold settle. destruct (nth_error (inflight v) k); [|reflexivity].
    rewrite (resume_events (Rejected e)). reflexivity.
Qed.

Lemma exhausted_batch_ends_cycle_witness :
  events (self one_buffered) <> []
  /\ inflight one_buffered = []
  /\ count is_post (trace thrice_rejected)
     = (count is_post (trace one_buffered) + Z.to_nat maxAttempts)%nat
  /\ events (self thrice_rejected) = events (self one_buffered)
  /\ isSendingEvents (self thrice_rejected) = false
  /\ inflight thrice_rejected = [].
Proof.
  unfold thrice_rejected.
  assert (N : events (self one_buffered) <> []) by (simpl; discriminate).
  assert (I : inflight one_buffered = []) by reflexivity.
  destruct (exhausted_batch_ends_cycle one_buffered (BadStatus 500) NetworkError Timeout N I)
    as [_ [P [E [F [J _]]]]].
  split; [exact N|]. split; [exact I|]. split; [exact P|].
  split; [exact E|]. split; [exact F|exact J].
Defined.

(** ** The request of a delivery attempt *)












Example body_of_two_events :
  body (request_of (construct (mkOptions "key" None None None None))
          [click; purchase])
  = requote ("{'events':[{'serializedEvent':'Cgs=','schemaName':'click','projectName':'shop'},"
             ++ "{'serializedEvent':'Kg==','schemaName':'purchase','projectName':'shop'}]}")%string.
Proof. vm_compute. reflexivity. Qed.

Example base64_vectors :
  map (fun s => Base64.encode (Base64.bytes_of_string s))
      ["f"; "fo"; "foo"; "foob"; "fooba"; "foobar"]
  = ["Zg=="; "Zm8="; "Zm9v"; "Zm9vYg=="; "Zm9vYmE="; "Zm9vYmFy"].
Proof. reflexivity. Qed.


(** * Further properties *)

(** ** The configuration across a run *)

Lemma sendEvents_config (w : World) :
  config_of (self (sendEvents w)) = config_of (self w).
Proof. unfold_methods. repeat case_if; reflexivity. Qed.

Lemma resume_config (r : Outcome) (t : Task) (w : World) :
  config_of (self (resume r t w)) = config_of (self w).
Proof. destruct r; unfold_methods; simpl; repeat case_if; reflexivity. Qed.

Lemma log_config (now : Z) (event : LogUnifyEvent) (w : World) :
  config_of (self (world_of (log now event w))) = config_of (self w).
Proof.
  unfold log.
  assert (E : config_of (self (purge (push event w))) = config_of (self w)).
  { unfold purge. case_if; reflexivity. }
  destruct (toObject event) as [payload|]; simpl; [|exact E].
  unfold trigger. case_if; [rewrite sendEvents_config|];
    unfold schedule; case_if; exact E.
Qed.

Lemma fire_config (k : nat) (w : World) : config_of (self (fire k w)) = config_of (self w).
Proof.
  unfold fire. destruct (nth_error (timers w) k); [|reflexivity].
  rewrite sendEvents_config. reflexivity.
Qed.

Lemma settle_config (k : nat) (r : Outcome) (w : World) :
  config_of (self (settle k r w)) = config_of (self w).
Proof.
  unfold settle. destruct (nth_error (inflight w) k); [|reflexivity].
  rewrite resume_config. reflexivity.
Qed.

Lemma or_number_truthy (x : option Z) (d : Z) : d <> 0 -> or_number x d <> 0.
Proof.
  intros D. destruct x as [n|]; simpl; [|exact D].
  destruct (Z.eqb_spec n 0); assumption.
Qed.

Lemma or_string_truthy (x : option string) (d : string) :
  d <> EmptyString -> or_string x d <> EmptyString.
Proof. intros D. destruct x as [[|c s]|]; simpl; try exact D. discriminate. Qed.

Lemma settings_truthy_frame (w w' : World) :
  config_of (self w') = config_of (self w) -> settings_truthy w -> settings_truthy w'.
Proof.
  unfold settings_truthy, config_of. intros E. injection E as -> -> -> _ _. tauto.
Qed.

Lemma step_settings_truthy (a : Action) (p : Program) :
  holds settings_truthy p -> holds settings_truthy (step a p).
Proof.
  destruct a as [options|now event|k|k r], p as [w|]; simpl; auto.
  - intros [B [M U]]. repeat split; simpl;
      [apply or_number_truthy|apply or_number_truthy|apply or_string_truthy]; assumption.
  - intros _. repeat split; simpl;
      [apply or_number_truthy|apply or_number_truthy|apply or_string_truthy]; discriminate.
  - apply settings_truthy_frame, log_config.
  - apply settings_truthy_frame, fire_config.
  - apply settings_truthy_frame, settle_config.
Qed.

(** X1. Whatever is passed to [setup], the instance never holds a falsy
    optional setting: [batchInterval] and [minBatchSize] are never 0 and
    [receiverURL] is never empty. A 0 or an empty string in the options
    leaves the value that was there. *)
Theorem settings_never_falsy :
  forall (acts : list Action) (w : World),
    run acts boot = Some w ->
    batchInterval (self w) <> 0
    /\ minBatchSize (self w) <> 0
    /\ receiverURL (self w) <> EmptyString.
Proof.
  intros acts w E.
  assert (H : holds settings_truthy (run acts boot)).
  { apply run_holds; [exact step_settings_truthy|exact I]. }
  rewrite E in H. exact H.
Qed.

Lemma settings_never_falsy_witness :
  exists w : World,
    run [CallSetup (mkOptions "key" (Some EmptyString) (Some 0) (Some 0) None)] boot = Some w
    /\ batchInterval (self w) <> 0
    /\ minBatchSize (self w) <> 0
    /\ receiverURL (self w) <> EmptyString.
Proof.
  eexists. split; [reflexivity|].
  exact (settings_never_falsy
           [CallSetup (mkOptions "key" (Some EmptyString) (Some 0) (Some 0) None)]
           _ eq_refl).
Defined.

Lemma configure_twice (options : Options) (o : LogUnifyLogger) :
  configure options (configure options o) = configure options o.
Proof.
  unfold configure. simpl. f_equal.
  - destruct (opt_receiverURL options) as [[|c s]|]; reflexivity.
  - destruct (opt_batchInterval options) as [n|]; simpl; [|reflexivity].
    destruct (n =? 0); reflexivity.
  - destruct (opt_minBatchSize options) as [n|]; simpl; [|reflexivity].
    destruct (n =? 0); reflexivity.
Qed.

(** X2. [setup] is idempotent: a second call with the same options gives
    the instance of the first call, whether the first call constructed the
    instance or reconfigured it. *)
Theorem setup_idempotent :
  forall (options : Options) (p : Program),
    setup options (Some (setup options p)) = setup options p.
Proof.
  intros options [w|]; simpl; unfold update, new_world, construct; simpl;
    rewrite configure_twice; reflexivity.
Qed.

Lemma step_keeps_level (a : Action) (w : World) :
  exists w', step a (Some w) = Some w' /\ loggerLevel (self w') = loggerLevel (self w).
Proof.
  destruct a as [options|now event|k|k r]; simpl; eexists; split; try reflexivity.
  - pose proof (log_config now event w) as E. unfold config_of in E. congruence.
  - pose proof (fire_config k w) as E. unfold config_of in E. congruence.
  - pose proof (settle_config k r w) as E. unfold config_of in E. congruence.
Qed.

Lemma run_keeps_level (acts : list Action) :
  forall w, exists w', run acts (Some w) = Some w'
                       /\ loggerLevel (self w') = loggerLevel (self w).
Proof.
  induction acts as [|a acts IH]; intros w.
  - exists w. split; reflexivity.
  - destruct (step_keeps_level a w) as [w1 [S1 L1]].
    destruct (IH w1) as [w2 [S2 L2]].
    exists w2. split; [|congruence].
    unfold run in *. simpl. simpl in S1. rewrite S1. exact S2.
Qed.

(** X3. The level of the winston logger is chosen by the first call of
    [setup] and never changes: later calls of [setup] do not read
    [enableDebugLog]. *)
Theorem logger_level_fixed_by_first_setup :
  forall (options : Options) (acts : list Action),
  exists w : World,
    run (CallSetup options :: acts) boot = Some w
    /\ loggerLevel (self w)
       = if truthy_bool (opt_enableDebugLog options) then LevelDebug else LevelInfo.
Proof.
  intros options acts.
  destruct (run_keeps_level acts (new_world options)) as [w [R L]].
  exists w. split; [exact R|]. rewrite L. reflexivity.
Qed.

(** ** First in, first out *)

Lemma skipn_snoc {A : Type} (k : nat) (l : list A) (x : A) :
  skipn k l ++ [x] = skipn (Nat.min k (List.length l)) (l ++ [x]).
Proof.
  destruct (Nat.le_gt_cases k (List.length l)) as [H|H].
  - rewrite Nat.min_l by exact H. rewrite skipn_app.
    replace (k - List.length l)%nat with 0%nat by lia. reflexivity.
  - rewrite Nat.min_r by lia. rewrite skipn_all2 by lia.
    rewrite skipn_app, skipn_all, Nat.sub_diag. reflexivity.
Qed.

Lemma appended_suffix (k : nat) (l : list LogUnifyEvent) (event : LogUnifyEvent) :
  exists k', appended (skipn k l) event = skipn k' (l ++ [event]).
Proof.
  unfold appended, splice0. change (Z.to_nat 1) with 1%nat.
  rewrite skipn_snoc. case_if.
  - rewrite skipn_skipn. eexists. reflexivity.
  - eexists. reflexivity.
Qed.

Lemma logged_snoc (acts : list Action) (a : Action) :
  logged (acts ++ [a])
  = logged acts ++ match a with CallLog _ event => [event] | _ => [] end.
Proof. unfold logged. rewrite flat_map_app. simpl. rewrite app_nil_r. reflexivity. Qed.

(** X4. The buffer is always a suffix of the sequence of the events passed
    to [log] since the instance was created: events leave it at the head
    only, enter it at the tail only, and are never reordered or
    duplicated. *)
Theorem buffer_is_suffix_of_logged :
  forall (options : Options) (acts : list Action),
  exists (w : World) (k : nat),
    run (CallSetup options :: acts) boot = Some w
    /\ events (self w) = skipn k (logged acts).
Proof.
  intros options acts. induction acts as [|a acts IH] using rev_ind.
  - exists (new_world options), 0%nat. split; reflexivity.
  - destruct IH as [w [k [R E]]].
    assert (S : run (CallSetup options :: acts ++ [a]) boot = step a (Some w)).
    { rewrite app_comm_cons, run_app, R. reflexivity. }
    rewrite S, logged_snoc.
    destruct a as [o|now event|j|j r]; simpl.
    + exists (update (configure o) w), k. split; [reflexivity|].
      rewrite app_nil_r. exact E.
    + destruct (appended_suffix k (logged acts) event) as [k' K].
      exists (world_of (log now event w)), k'. split; [reflexivity|].
      rewrite log_events, E. exact K.
    + exists (fire j w), k. split; [reflexivity|].
      rewrite fire_events, app_nil_r. exact E.
    + rewrite app_nil_r. unfold settle.
      destruct (nth_error (inflight w) j) as [t|].
      * destruct r as [|e].
        -- eexists. exists (Z.to_nat (len (bulk t)) + k)%nat. split; [reflexivity|].
           rewrite (resume_events Resolved). simpl. unfold splice0.
           rewrite E, skipn_skipn. reflexivity.
        -- eexists. exists k. split; [reflexivity|].
           rewrite (resume_events (Rejected e)). exact E.
      * exists w, k. split; [reflexivity|exact E].
Qed.

(** ** The size of a batch *)

Lemma slice0_sized (l : list LogUnifyEvent) :
  l <> [] -> sized_batch (slice0 maxBulkSize l).
Proof.
  intros N. unfold sized_batch, slice0, len.
  change (Z.to_nat maxBulkSize) with 50%nat. split.
  - destruct l; [congruence|discriminate].
  - rewrite length_firstn. unfold maxBulkSize. lia.
Qed.

Lemma sized_emit (e : Effect) (w : World) : sized_post e -> sized w -> sized (emit e w).
Proof.
  intros H [T F]. split; [|exact F]. simpl. apply Forall_app. split; [exact T|].
  constructor; [exact H|constructor].
Qed.

Lemma sized_frame (w w' : World) :
  trace w' = trace w -> inflight w' = inflight w -> sized w -> sized w'.
Proof. unfold sized. intros -> ->. tauto. Qed.

Lemma attempt_sized (b : list LogUnifyEvent) (left : Z) (w : World) :
  sized_batch b -> sized w -> sized (attempt b left w).
Proof.
  intros B [T F]. split; simpl.
  - apply Forall_app. split; [exact T|].
    constructor; [|constructor]. exists (self w), b. split; [reflexivity|exact B].
  - apply Forall_app. split; [exact F|]. constructor; [exact B|constructor].
Qed.

Lemma give_up_sized (w : World) : sized w -> sized (give_up_cycle w).
Proof.
  intros W. unfold give_up_cycle. repeat apply sized_emit; try exact I.
  eapply sized_frame; [reflexivity|reflexivity|exact W].
Qed.

Lemma outer_loop_sized (w : World) : sized w -> sized (outer_loop w).
Proof.
  intros W. unfold outer_loop. destruct (Z.ltb_spec 0 (len (events (self w)))) as [H|H].
  - case_if; [|apply give_up_sized, W].
    apply attempt_sized; [|exact W]. apply slice0_sized.
    intros E. rewrite E in H. unfold len in H. simpl in H. lia.
  - apply sized_emit; [exact I|]. eapply sized_frame; [reflexivity|reflexivity|exact W].
Qed.

Lemma after_attempts_sized (left : Z) (w : World) : sized w -> sized (after_attempts left w).
Proof.
  intros W. unfold after_attempts. case_if;
    [apply give_up_sized|apply outer_loop_sized]; exact W.
Qed.

Lemma resume_sized (r : Outcome) (t : Task) (w : World) :
  sized_batch (bulk t) -> sized w -> sized (resume r t w).
Proof.
  intros B W. unfold resume. destruct r; simpl.
  - apply after_attempts_sized. eapply sized_frame; [reflexivity|reflexivity|].
    apply sized_emit; [exact I|exact W].
  - unfold inner_loop. case_if.
    + apply attempt_sized; [exact B|]. apply sized_emit; [exact I|exact W].
    + apply after_attempts_sized, sized_emit; [exact I|exact W].
Qed.

Lemma sendEvents_sized (w : World) : sized w -> sized (sendEvents w).
Proof.
  intros W. unfold sendEvents. case_if; [exact W|].
  apply outer_loop_sized. eapply sized_frame; [reflexivity|reflexivity|].
  apply sized_emit; [exact I|exact W].
Qed.

Lemma log_sized (now : Z) (event : LogUnifyEvent) (w : World) :
  sized w -> sized (world_of (log now event w)).
Proof.
  intros W.
  assert (W1 : sized (purge (push event w))).
  { unfold purge. case_if.
    - eapply sized_frame; [reflexivity|reflexivity|]. apply sized_emit; [exact I|].
      eapply sized_frame; [reflexivity|reflexivity|exact W].
    - eapply sized_frame; [reflexivity|reflexivity|exact W]. }
  unfold log. destruct (toObject event) as [payload|]; simpl; [|exact W1].
  assert (W2 : sized (schedule now (emit (LoggerDebug (LoggedEvent payload))
                                      (purge (push event w))))).
  { unfold schedule. case_if; [|apply sized_emit; [exact I|exact W1]].
    destruct W1 as [T F]. split; [|exact F]. simpl.
    repeat (apply Forall_app; split); try exact T; repeat constructor. }
  unfold trigger. case_if; [|exact W2].
  apply sendEvents_sized, sized_emit; [exact I|exact W2].
Qed.

Lemma Forall_drop_nth {A : Type} (P : A -> Prop) (k : nat) (l : list A) :
  Forall P l -> Forall P (drop_nth k l).
Proof.
  rewrite !Forall_forall. intros H x X. apply H. unfold drop_nth in X.
  apply in_app_or in X. destruct X as [X|X].
  - rewrite <- (firstn_skipn k l). apply in_or_app. left. exact X.
  - rewrite <- (firstn_skipn (S k) l). apply in_or_app. right. exact X.
Qed.

Lemma step_sized (a : Action) (p : Program) : holds sized p -> holds sized (step a p).
Proof.
  destruct a as [options|now event|k|k r], p as [w|]; simpl; auto.
  - intros _. split; constructor.
  - apply log_sized.
  - intros W. unfold fire. destruct (nth_error (timers w) k); [|exact W].
    apply sendEvents_sized. eapply sized_frame; [reflexivity|reflexivity|exact W].
  - intros W. unfold settle. destruct (nth_error (inflight w) k) as [t|] eqn:E; [|exact W].
    destruct W as [T F]. apply resume_sized.
    + rewrite Forall_forall in F. apply F. eapply nth_error_In, E.
    + split; simpl; [exact T|]. apply Forall_drop_nth, F.
Qed.

(** X5. Every request posted in a run carries a batch of at least one and
    at most [maxBulkSize] events: an empty request is never sent, and a
    batch of a retry is the batch of the first attempt. *)
Theorem posted_batches_are_sized :
  forall (acts : list Action) (w : World) (r : Request),
    run acts boot = Some w ->
    In (AxiosPost r) (trace w) ->
    exists (o : LogUnifyLogger) (b : list LogUnifyEvent),
      r = request_of o b /\ b <> [] /\ len b <= maxBulkSize.
Proof.
  intros acts w r E H.
  assert (W : holds sized (run acts boot)).
  { apply run_holds; [exact step_sized|exact I]. }
  rewrite E in W. destruct W as [T _].
  rewrite Forall_forall in T. exact (T _ H).
Qed.

Lemma posted_batches_are_sized_witness :
  exists (w : World) (o : LogUnifyLogger) (b : list LogUnifyEvent),
    run first_attempt_posted boot = Some w
    /\ In (AxiosPost (request_of o b)) (trace w)
    /\ b <> [] /\ len b <= maxBulkSize.
Proof.
  assert (H : In (AxiosPost (request_of (construct (mkOptions "key" None None (Some 1) None))
                               [click]))
                 (trace (world_of (log 1000000 click
                                     (setup (mkOptions "key" None None (Some 1) None) boot))))).
  { vm_compute. tauto. }
  destruct (posted_batches_are_sized first_attempt_posted _ _ eq_refl H) as [o [b [_ _]]].
  eexists. exists (construct (mkOptions "key" None None (Some 1) None)), [click].
  split; [reflexivity|]. split; [exact H|]. split; [discriminate|].
  unfold len, maxBulkSize. simpl. lia.
Defined.

(** ** What a success removes *)

Lemma sendEvents_errors (w : World) :
  count is_error (trace (sendEvents w)) = count is_error (trace w).
Proof. unfold_methods. repeat case_if; simpl; count_trace. Qed.

Lemma resume_errors (r : Outcome) (t : Task) (w : World) :
  count is_error (trace (resume r t w)) = count is_error (trace w).
Proof. destruct r; unfold_methods; simpl; repeat case_if; simpl; count_trace. Qed.

Lemma sendEvents_inflight (w : World) :
  inflight (sendEvents w) = inflight w
  \/ inflight (sendEvents w)
     = inflight w ++ [mkTask (slice0 maxBulkSize (events (self w))) (maxAttempts - 1)].
Proof. unfold_methods. repeat case_if; simpl; tauto. Qed.

Lemma sendEvents_batch_at_head (w : World) :
  batch_at_head w -> batch_at_head (sendEvents w).
Proof.
  intros H N t T. rewrite sendEvents_errors in N. rewrite sendEvents_events.
  destruct (sendEvents_inflight w) as [E|E]; rewrite E in T.
  - exact (H N t T).
  - apply in_app_or in T. destruct T as [T|[<-|[]]]; [exact (H N t T)|].
    exists (skipn (Z.to_nat maxBulkSize) (events (self w))). simpl. unfold slice0.
    symmetry. apply firstn_skipn.
Qed.

Lemma log_batch_at_head (now : Z) (event : LogUnifyEvent) (w : World) :
  batch_at_head w -> batch_at_head (world_of (log now event w)).
Proof.
  intros H.
  assert (H1 : batch_at_head (purge (push event w))).
  { unfold purge. case_if.
    - intros N. simpl in N. rewrite count_app in N. unfold count in N. simpl in N. lia.
    - intros N t T. simpl in *. destruct (H N t T) as [rest E].
      exists (rest ++ [event]). rewrite E, app_assoc. reflexivity. }
  unfold log. destruct (toObject event) as [payload|]; simpl; [|exact H1].
  assert (H2 : batch_at_head (schedule now (emit (LoggerDebug (LoggedEvent payload))
                                              (purge (push event w))))).
  { set (w1 := purge (push event w)) in *.
    assert (F : events (self (schedule now (emit (LoggerDebug (LoggedEvent payload)) w1)))
                = events (self w1)
                /\ inflight (schedule now (emit (LoggerDebug (LoggedEvent payload)) w1))
                   = inflight w1
                /\ count is_error
                     (trace (schedule now (emit (LoggerDebug (LoggedEvent payload)) w1)))
                   = count is_error (trace w1)).
    { unfold schedule. case_if; simpl; repeat split; count_trace. }
    destruct F as [F1 [F2 F3]].
    intros N t T. rewrite F1. rewrite F2 in T. rewrite F3 in N. exact (H1 N t T). }
  unfold trigger. case_if; [|exact H2].
  apply sendEvents_batch_at_head.
  intros N t T. simpl in *. rewrite count_app in N. apply H2; [lia|exact T].
Qed.

Lemma resume_batch_at_head (r : Outcome) (t : Task) (w : World) :
  inflight w = [] ->
  (count is_error (trace w) = 0%nat -> exists rest, events (self w) = bulk t ++ rest) ->
  batch_at_head (resume r t w).
Proof.
  intros I H N u U. rewrite resume_errors in N. specialize (H N).
  assert (O : forall v, inflight v = [] -> In u (inflight (outer_loop v)) ->
                        exists rest, events (self (outer_loop v)) = bulk u ++ rest).
  { intros v V. unfold outer_loop. repeat case_if; simpl; rewrite V; simpl;
      try tauto. intros [<-|[]]. simpl. unfold slice0.
    exists (skipn (Z.to_nat maxBulkSize) (events (self v))).
    symmetry. apply firstn_skipn. }
  revert U. unfold resume. destruct r; simpl.
  - unfold after_attempts. case_if.
    + simpl. rewrite I. simpl. tauto.
    + apply O. exact I.
  - unfold inner_loop. case_if.
    + simpl. rewrite I. intros [<-|[]]. exact H.
    + unfold after_attempts. case_if.
      * simpl. rewrite I. simpl. tauto.
      * apply O. exact I.
Qed.

Lemma step_batch_at_head (a : Action) (p : Program) :
  holds (fun w => cycle_state w /\ batch_at_head w) p ->
  holds (fun w => cycle_state w /\ batch_at_head w) (step a p).
Proof.
  intros H.
  assert (C : holds cycle_state (step a p)).
  { apply step_cycle_state. destruct p; [apply H|exact I]. }
  destruct p as [w|].
  2:{ destruct a; simpl in *; auto. split; [exact C|]. intros _ t []. }
  destruct H as [S H].
  destruct a as [options|now event|k|k r]; simpl in *; split; try exact C.
  - exact H.
  - apply log_batch_at_head, H.
  - unfold fire. destruct (nth_error (timers w) k); [|exact H].
    apply sendEvents_batch_at_head. exact H.
  - unfold settle. destruct (nth_error (inflight w) k) as [t|] eqn:E; [|exact H].
    assert (T : inflight w = [t]).
    { destruct S as [[_ [t' [I' _]]]|[_ I']]; rewrite I' in E.
      - destruct k as [|[|k]]; simpl in E; try discriminate. congruence.
      - destruct k; discriminate. }
    apply resume_batch_at_head; simpl.
    + rewrite T. destruct k as [|k]; [reflexivity|].
      rewrite T in E. destruct k; discriminate.
    + intros N. apply (H N). rewrite T. left. reflexivity.
Qed.

(** X6. As long as the overflow branch of [log] has never run, the batch
    of the awaited request is a prefix of the buffer, whatever was logged
    since it was posted; so when the request is accepted, the splice
    removes exactly the events that were delivered and leaves the rest. *)
Theorem success_removes_the_delivered_batch :
  forall (acts : list Action) (w : World) (t : Task),
    run acts boot = Some w ->
    count is_error (trace w) = 0%nat ->
    nth_error (inflight w) 0 = Some t ->
    exists rest : list LogUnifyEvent,
      events (self w) = bulk t ++ rest
      /\ events (self (settle 0 Resolved w)) = rest.
Proof.
  intros acts w t E N T.
  assert (H : holds (fun w => cycle_state w /\ batch_at_head w) (run acts boot)).
  { apply run_holds; [exact step_batch_at_head|exact I]. }
  rewrite E in H. destruct H as [_ H].
  destruct (H N t (nth_error_In _ _ T)) as [rest R].
  exists rest. split; [exact R|].
  unfold settle. rewrite T. rewrite (resume_events Resolved). simpl.
  rewrite R. unfold splice0, len. rewrite Nat2Z.id, skipn_app, skipn_all, Nat.sub_diag.
  reflexivity.
Qed.

Lemma success_removes_the_delivered_batch_witness :
  exists (w : World) (t : Task),
    run (overlapping_triggers ++ [CallLog 1000002 purchase]) boot = Some w
    /\ count is_error (trace w) = 0%nat
    /\ nth_error (inflight w) 0 = Some t
    /\ exists rest : list LogUnifyEvent,
        events (self w) = bulk t ++ rest
        /\ events (self (settle 0 Resolved w)) = rest.
Proof.
  eexists. eexists. split; [reflexivity|]. split; [reflexivity|]. split; [reflexivity|].
  exact (success_removes_the_delivered_batch
           (overlapping_triggers ++ [CallLog 1000002 purchase]) _ _
           eq_refl eq_refl eq_refl).
Defined.

Lemma log_inflight_busy (now : Z) (event : LogUnifyEvent) (w : World) :
  isSendingEvents (self w) = true ->
  inflight (world_of (log now event w)) = inflight w.
Proof.
  intros F. unfold log.
  assert (E : inflight (purge (push event w)) = inflight w
              /\ isSendingEvents (self (purge (push event w))) = true).
  { unfold purge. case_if; simpl; split; auto. }
  destruct E as [E1 E2].
  destruct (toObject event) as [payload|]; simpl; [|exact E1].
  unfold trigger, sendEvents.
  assert (G : inflight (schedule now (emit (LoggerDebug (LoggedEvent payload))
                                        (purge (push event w)))) = inflight w
              /\ isSendingEvents
                   (self (schedule now (emit (LoggerDebug (LoggedEvent payload))
                                          (purge (push event w))))) = true).
  { unfold schedule. case_if; simpl; split; assumption. }
  destruct G as [G1 G2].
  case_if; [|exact G1]. simpl. rewrite G2. exact G1.
Qed.

(** X7. When [log] purges the oldest event while a request is awaited, the
    batch of that request is no longer at the head of the buffer: if the
    request is then accepted, the splice removes, with the rest of the
    batch, the event that followed the batch, which was never posted. *)
Theorem overflow_in_flight_drops_an_unsent_event :
  forall (now : Z) (event unsent : LogUnifyEvent) (rest : list LogUnifyEvent)
         (w : World) (t : Task),
    isSendingEvents (self w) = true ->
    inflight w = [t] ->
    bulk t <> [] ->
    events (self w) = bulk t ++ unsent :: rest ->
    len (events (self w)) = maxUnsentEvents ->
    inflight (world_of (log now event w)) = [t]
    /\ events (self (world_of (log now event w))) = tl (bulk t) ++ unsent :: rest ++ [event]
    /\ events (self (settle 0 Resolved (world_of (log now event w)))) = rest ++ [event].
Proof.
  intros now event unsent rest w t F I B E L.
  assert (A : events (self (world_of (log now event w)))
              = tl (bulk t) ++ unsent :: rest ++ [event]).
  { rewrite log_events. unfold appended, splice0. change (Z.to_nat 1) with 1%nat.
    destruct (Z.ltb_spec maxUnsentEvents (len (events (self w) ++ [event]))) as [G|G].
    - rewrite E. destruct (bulk t) as [|b bs]; [congruence|].
      simpl. rewrite <- app_assoc. reflexivity.
    - unfold len in *. rewrite length_app in G. simpl in G. lia. }
  assert (J : inflight (world_of (log now event w)) = [t]).
  { rewrite log_inflight_busy by exact F. exact I. }
  split; [exact J|]. split; [exact A|].
  unfold settle. rewrite J. simpl nth_error. cbv iota.
  rewrite (resume_events Resolved). simpl self. simpl events. rewrite A.
  unfold splice0, len. rewrite Nat2Z.id.
  destruct (bulk t) as [|b bs]; [congruence|]. cbn [tl List.length].
  change (S (List.length bs)) with (1 + List.length bs)%nat.
  rewrite <- skipn_skipn, skipn_app, skipn_all, Nat.sub_diag. reflexivity.
Qed.

Lemma overflow_in_flight_drops_an_unsent_event_witness :
  isSendingEvents (self full_in_flight) = true
  /\ inflight full_in_flight = [mkTask (repeat later_event 10) 2]
  /\ events (self full_in_flight)
     = repeat later_event 10 ++ later_event :: repeat later_event 4989
  /\ len (events (self full_in_flight)) = maxUnsentEvents
  /\ events (self (settle 0 Resolved (world_of (log 2000000 purchase full_in_flight))))
     = repeat later_event 4989 ++ [purchase].
Proof.
  assert (F : isSendingEvents (self full_in_flight) = true) by (vm_compute; reflexivity).
  assert (I : inflight full_in_flight = [mkTask (repeat later_event 10) 2])
    by (vm_compute; reflexivity).
  assert (E : events (self full_in_flight)
              = bulk (mkTask (repeat later_event 10) 2)
                  ++ later_event :: repeat later_event 4989)
    by (vm_compute; reflexivity).
  assert (L : len (events (self full_in_flight)) = maxUnsentEvents)
    by (vm_compute; reflexivity).
  assert (B : bulk (mkTask (repeat later_event 10) 2) <> []) by (simpl; discriminate).
  split; [exact F|]. split; [exact I|]. split; [exact E|]. split; [exact L|].
  exact (proj2 (proj2 (overflow_in_flight_drops_an_unsent_event
                         2000000 purchase later_event (repeat later_event 4989)
                         full_in_flight _ F I B E L))).
Defined.

(** ** A cycle with a working transport *)

Lemma settle_accepted_early (o : LogUnifyLogger) (ts : list Z) (tr : list Effect)
  (b : list LogUnifyEvent) (left : Z) :
  left <> 0 ->
  settle 0 Resolved (mkWorld o ts [mkTask b left] tr)
  = outer_loop (mkWorld (set_events (splice0 (len b) (events o)) o) ts []
                  (tr ++ [LoggerDebug (SentEvents (len b))])).
Proof.
  intros H. unfold settle, resume, after_attempts. simpl.
  apply Z.eqb_neq in H. rewrite H. reflexivity.
Qed.

Lemma outer_loop_empty (o : LogUnifyLogger) (ts : list Z) (tr : list Effect) :
  events o = [] ->
  outer_loop (mkWorld o ts [] tr)
  = mkWorld (set_isSendingEvents false o) ts [] (tr ++ [Returned None]).
Proof. intros E. unfold outer_loop. simpl. rewrite E. reflexivity. Qed.

Lemma splice_of_slice_shorter (x : LogUnifyEvent) (l : list LogUnifyEvent) :
  (List.length (splice0 (len (slice0 maxBulkSize (x :: l))) (x :: l)) <= List.length l)%nat.
Proof.
  unfold splice0, slice0, len. change (Z.to_nat maxBulkSize) with 50%nat.
  rewrite Nat2Z.id, length_skipn, length_firstn. simpl List.length. lia.
Qed.

Lemma drain_from_loop_head (fuel : nat) :
  forall (o : LogUnifyLogger) (ts : list Z) (tr : list Effect),
    (List.length (events o) <= fuel)%nat ->
    let bs := batches_upto fuel (events o) in
    let w' := accept_all (List.length bs) (outer_loop (mkWorld o ts [] tr)) in
    events (self w') = []
    /\ isSendingEvents (self w') = false
    /\ inflight w' = []
    /\ timers w' = ts
    /\ filter is_post (trace w')
       = filter is_post tr ++ map (fun b => AxiosPost (request_of o b)) bs.
Proof.
  induction fuel as [|fuel IH]; intros o ts tr L.
  - assert (E : events o = []) by (destruct (events o); [reflexivity|simpl in L; lia]).
    simpl. rewrite (outer_loop_empty o ts tr E). simpl.
    rewrite E, filter_app, !app_nil_r. repeat split.
  - destruct (events o) as [|x l] eqn:E.
    + simpl. rewrite (outer_loop_empty o ts tr E). simpl.
      rewrite E, filter_app, !app_nil_r. repeat split.
    + cbn [batches_upto List.length map]. unfold accept_all.
      rewrite Nat.iter_succ_r.
      rewrite outer_loop_starts by (rewrite E; discriminate).
      rewrite settle_accepted_early by (unfold maxAttempts; lia).
      rewrite E.
      pose proof (splice_of_slice_shorter x l) as Sh.
      specialize (IH (set_events (splice0 (len (slice0 maxBulkSize (x :: l))) (x :: l)) o)
                    ts
                    ((tr ++ [AxiosPost (request_of o (slice0 maxBulkSize (x :: l)))])
                       ++ [LoggerDebug (SentEvents (len (slice0 maxBulkSize (x :: l))))])).
      simpl events in IH. simpl in L.
      specialize (IH ltac:(lia)). cbv zeta in IH. unfold accept_all in IH.
      destruct IH as [I1 [I2 [I3 [I4 I5]]]].
      split; [exact I1|]. split; [exact I2|]. split; [exact I3|]. split; [exact I4|].
      rewrite I5, !filter_app. simpl filter. rewrite app_nil_r, <- app_assoc.
      reflexivity.
Qed.

Lemma batches_upto_concat (fuel : nat) :
  forall l : list LogUnifyEvent,
    (List.length l <= fuel)%nat ->
    List.concat (batches_upto fuel l) = l /\ Forall sized_batch (batches_upto fuel l).
Proof.
  induction fuel as [|fuel IH]; intros l L.
  - destruct l; [split; [reflexivity|constructor]|simpl in L; lia].
  - destruct l as [|x l]; [split; [reflexivity|constructor]|].
    cbn [batches_upto List.concat].
    pose proof (splice_of_slice_shorter x l) as Sh. simpl in L.
    destruct (IH (splice0 (len (slice0 maxBulkSize (x :: l))) (x :: l)) ltac:(lia))
      as [C F].
    split.
    + rewrite C. unfold splice0, slice0, len. rewrite Nat2Z.id.
      change (Z.to_nat maxBulkSize) with 50%nat. rewrite length_firstn.
      destruct (Nat.le_gt_cases 50 (List.length (x :: l))) as [G|G].
      * rewrite Nat.min_l by exact G. apply firstn_skipn.
      * rewrite Nat.min_r by lia. rewrite skipn_all, firstn_all2 by lia.
        apply app_nil_r.
    + constructor; [|exact F]. apply slice0_sized. discriminate.
Qed.

(** X8. With a transport that accepts every request, a flush started on an
    idle instance empties the buffer: it posts the buffered events in
    order, in consecutive batches of at most [maxBulkSize] events, one
    request per batch, and ends with the flag clear and nothing awaited. *)
Theorem flush_drains_the_buffer :
  forall w : World,
    isSendingEvents (self w) = false ->
    inflight w = [] ->
    let bs := batches (events (self w)) in
    let w' := accept_all (List.length bs) (sendEvents w) in
    events (self w') = []
    /\ isSendingEvents (self w') = false
    /\ inflight w' = []
    /\ filter is_post (trace w')
       = filter is_post (trace w) ++ map (fun b => AxiosPost (request_of (self w) b)) bs
    /\ List.concat bs = events (self w)
    /\ Forall sized_batch bs.
Proof.
  intros w F I bs w'.
  destruct (batches_upto_concat (List.length (events (self w))) (events (self w))
              (Nat.le_refl _)) as [C S].
  destruct w as [o ts fl tr]. simpl in *. subst fl.
  destruct (drain_from_loop_head (List.length (events o)) (set_isSendingEvents true o) ts
              (tr ++ [LoggerDebug StartedSending]) (Nat.le_refl _))
    as [D1 [D2 [D3 [_ D5]]]].
  assert (W : w' = accept_all (List.length (batches (events o)))
                     (outer_loop (mkWorld (set_isSendingEvents true o) ts []
                                    (tr ++ [LoggerDebug StartedSending])))).
  { unfold w', bs, sendEvents. simpl. rewrite F. reflexivity. }
  rewrite W. unfold batches, bs.
  split; [exact D1|]. split; [exact D2|]. split; [exact D3|].
  split; [|split; [exact C|exact S]].
  simpl events in D5. rewrite D5, filter_app. simpl filter. rewrite app_nil_r.
  reflexivity.
Qed.

Lemma flush_drains_the_buffer_witness :
  isSendingEvents (self one_buffered) = false
  /\ inflight one_buffered = []
  /\ events (self one_buffered) = [click]
  /\ events (self (accept_all (List.length (batches (events (self one_buffered))))
                    (sendEvents one_buffered))) = [].
Proof.
  assert (F : isSendingEvents (self one_buffered) = false) by reflexivity.
  assert (I : inflight one_buffered = []) by reflexivity.
  split; [exact F|]. split; [exact I|]. split; [reflexivity|].
  exact (proj1 (flush_drains_the_buffer one_buffered F I)).
Defined.

(** ** When [log] arms the timer *)

Lemma log_schedule (now : Z) (event : LogUnifyEvent) (payload : JSON.value) (w : World) :
  toObject event = Some payload ->
  let w' := world_of (log now event w) in
  if due now (self w)
  then timers w' = timers w ++ [batchInterval (self w)]
       /\ lastScheduled (self w') = seconds now
       /\ count is_timeout (trace w') = S (count is_timeout (trace w))
  else timers w' = timers w
       /\ lastScheduled (self w') = lastScheduled (self w)
       /\ count is_timeout (trace w') = count is_timeout (trace w).
Proof.
  intros T w'. unfold w'. rewrite (log_normal _ _ _ _ T). simpl world_of.
  unfold before_trigger.
  remember (emit (LoggerDebug (LoggedEvent payload)) (purge (push event w))) as u eqn:Hu.
  assert (U : timers u = timers w /\ lastScheduled (self u) = lastScheduled (self w)
              /\ batchInterval (self u) = batchInterval (self w)
              /\ count is_timeout (trace u) = count is_timeout (trace w)).
  { rewrite Hu. unfold purge. case_if; simpl; repeat split; count_trace. }
  clear Hu.
  destruct U as [U1 [U2 [U3 U4]]].
  assert (D : due now (self u) = due now (self w)).
  { unfold due. rewrite U2, U3. reflexivity. }
  assert (G : forall v, timers (trigger v) = timers v
                        /\ lastScheduled (self (trigger v)) = lastScheduled (self v)
                        /\ count is_timeout (trace (trigger v)) = count is_timeout (trace v)).
  { intros v. unfold trigger. case_if; [|repeat split].
    destruct (sendEvents_counts (emit (LoggerDebug ScheduledImmediate) v))
      as [C1 [_ [C2 [C3 _]]]].
    rewrite C1, C2, C3. repeat split. count_trace. }
  destruct (G (schedule now u)) as [G1 [G2 G3]]. rewrite G1, G2, G3.
  unfold schedule. rewrite D. destruct (due now (self w)); simpl.
  - rewrite U1, U3. repeat split. rewrite !count_app, U4. unfold count. simpl. lia.
  - repeat split; assumption.
Qed.



Lemma log_without_toObject_schedule (now : Z) (event : LogUnifyEvent) (w : World) :
  toObject event = None ->
  timers (world_of (log now event w)) = timers w
  /\ lastScheduled (self (world_of (log now event w))) = lastScheduled (self w)
  /\ count is_timeout (trace (world_of (log now event w))) = count is_timeout (trace w).
Proof.
  intros T. unfold log. rewrite T. simpl. unfold purge.
  case_if; simpl; repeat split; count_trace.
Qed.




(** ** A size trigger that cannot fire *)

Lemma log_throw_counts (now : Z) (event : LogUnifyEvent) (w : World) :
  toObject event = None ->
  count is_immediate (trace (world_of (log now event w))) = count is_immediate (trace w)
  /\ count is_post (trace (world_of (log now event w))) = count is_post (trace w).
Proof.
  intros T. unfold log. rewrite T. simpl. unfold purge.
  case_if; simpl; split; count_trace.
Qed.

(** X11. With [minBatchSize] negative or above [maxUnsentEvents] the size
    trigger never fires: no call of [log] takes the immediate path or posts
    anything, because the length that the test reads is between 1 and
    [maxUnsentEvents]. Flushes are then started by the timer only. *)
Theorem size_trigger_out_of_range :
  forall (acts : list Action) (w : World) (now : Z) (event : LogUnifyEvent),
    run acts boot = Some w ->
    minBatchSize (self w) < 0 \/ maxUnsentEvents < minBatchSize (self w) ->
    count is_immediate (trace (world_of (log now event w))) = count is_immediate (trace w)
    /\ count is_post (trace (world_of (log now event w))) = count is_post (trace w).
Proof.
  intros acts w now event E M.
  assert (B : holds bounded (run acts boot)).
  { apply run_holds; [exact step_bounded|exact I]. }
  rewrite E in B. simpl in B. unfold bounded in B.
  destruct (toObject event) as [payload|] eqn:T; [|apply log_throw_counts, T].
  rewrite (log_normal _ _ _ _ T). simpl world_of.
  destruct (before_trigger_facts now event payload w) as [Ev [Mi [_ [_ [Im Po]]]]].
  unfold trigger.
  destruct (Z.eqb_spec (len (events (self (before_trigger now event payload w))))
              (minBatchSize (self (before_trigger now event payload w)))) as [Q|Q].
  - exfalso. rewrite Ev, Mi in Q.
    pose proof (appended_bounded _ event B) as U.
    pose proof (appended_nonempty (events (self w)) event) as N.
    assert (0 < len (appended (events (self w)) event)).
    { unfold len. destruct (appended (events (self w)) event); [congruence|].
      simpl List.length. lia. }
    lia.
  - split; assumption.
Qed.

Lemma size_trigger_out_of_range_witness :
  exists w : World,
    run [CallSetup (mkOptions "key" None None (Some (-1)) None)] boot = Some w
    /\ minBatchSize (self w) < 0
    /\ count is_immediate (trace (world_of (log 1000000 click w)))
       = count is_immediate (trace w).
Proof.
  eexists. split; [reflexivity|]. split; [reflexivity|].
  apply (size_trigger_out_of_range
           [CallSetup (mkOptions "key" None None (Some (-1)) None)] _ 1000000 click eq_refl).
  left. reflexivity.
Defined.

(** ** Retries and the next cycle *)

(** X12. The settings are read at each attempt: when [setup] is called
    while a request is awaited and that request is then rejected with
    attempts left, the retry posts the same batch to the new [receiverURL]
    with the new [apiKey]. *)
Theorem retry_uses_current_settings :
  forall (options : Options) (w : World) (t : Task) (e : TransportError),
    inflight w = [t] ->
    0 < attemptsLeft t ->
    let w' := settle 0 (Rejected e) (setup options (Some w)) in
    let r := request_of (configure options (self w)) (bulk t) in
    trace w' = trace w ++ [LoggerDebug (FailedToSend (len (bulk t)) e); AxiosPost r]
    /\ inflight w' = [mkTask (bulk t) (attemptsLeft t - 1)]
    /\ url r = or_string (opt_receiverURL options) (receiverURL (self w))
    /\ headers r = [ ("Content-Type", "application/json");
                     ("X-Auth-Token", opt_apiKey options) ].
Proof.
  intros options w t e I A w' r.
  destruct w as [o ts fl tr]. destruct t as [b left]. simpl in *. subst fl.
  unfold w', update. simpl.
  rewrite settle_rejected_retry by exact A. simpl.
  rewrite <- app_assoc. repeat split.
Qed.

Lemma retry_uses_current_settings_witness :
  inflight two_buffered = [mkTask [click; click] 2]
  /\ url (request_of (configure new_key_options (self two_buffered)) [click; click])
     = receiverURL (self two_buffered)
  /\ headers (request_of (configure new_key_options (self two_buffered)) [click; click])
     = [ ("Content-Type", "application/json"); ("X-Auth-Token", "key-2") ]
  /\ inflight (settle 0 (Rejected NetworkError) (setup new_key_options (Some two_buffered)))
     = [mkTask [click; click] 1].
Proof.
  assert (I : inflight two_buffered = [mkTask [click; click] 2]) by reflexivity.
  destruct (retry_uses_current_settings new_key_options two_buffered _ NetworkError I
              ltac:(simpl; lia)) as [_ [J [U H]]].
  split; [exact I|]. split; [exact U|]. split; [exact H|exact J].
Defined.

(** X13. A batch given up after [maxAttempts] rejections is not lost: the
    next flush, whatever starts it, posts the same batch again as its first
    request, with all its attempts available again. *)
Theorem abandoned_batch_is_posted_again :
  forall (w : World) (e1 e2 e3 : TransportError),
    events (self w) <> [] ->
    inflight w = [] ->
    let b := slice0 maxBulkSize (events (self w)) in
    let w3 := settle 0 (Rejected e3)
                (settle 0 (Rejected e2) (settle 0 (Rejected e1) (outer_loop w))) in
    trace (sendEvents w3)
    = trace w3 ++ [LoggerDebug StartedSending; AxiosPost (request_of (self w) b)]
    /\ inflight (sendEvents w3) = [mkTask b (maxAttempts - 1)]
    /\ isSendingEvents (self (sendEvents w3)) = true.
Proof.
  intros w e1 e2 e3 N I b w3. unfold w3, b. clear w3 b.
  destruct w as [o ts fl tr]. simpl in *. subst fl.
  rewrite (outer_loop_starts o ts tr N).
  rewrite settle_rejected_retry by (unfold maxAttempts; lia).
  rewrite settle_rejected_retry by (unfold maxAttempts; lia).
  change (maxAttempts - 1 - 1 - 1) with 0.
  rewrite settle_rejected_last.
  unfold sendEvents. simpl isSendingEvents. cbv iota.
  unfold update, emit. simpl.
  rewrite outer_loop_starts by exact N. simpl.
  rewrite <- app_assoc. repeat split.
Qed.

Lemma abandoned_batch_is_posted_again_witness :
  events (self one_buffered) <> []
  /\ inflight one_buffered = []
  /\ inflight (sendEvents thrice_rejected) = [mkTask [click] (maxAttempts - 1)]
  /\ isSendingEvents (self (sendEvents thrice_rejected)) = true.
Proof.
  assert (N : events (self one_buffered) <> []) by (simpl; discriminate).
  assert (I : inflight one_buffered = []) by reflexivity.
  split; [exact N|]. split; [exact I|].
  exact (proj2 (abandoned_batch_is_posted_again one_buffered
                  (BadStatus 500) NetworkError Timeout N I)).
Defined.

(** ** The format of a log line *)



(** ** Pending timers *)

Lemma resume_timers (r : Outcome) (t : Task) (w : World) :
  timers (resume r t w) = timers w.
Proof. destruct r; unfold_methods; simpl; repeat case_if; reflexivity. Qed.

Lemma drop_nth_beyond {A : Type} (k : nat) (l : list A) :
  nth_error l k = None -> drop_nth k l = l.
Proof.
  intros H. apply nth_error_None in H. unfold drop_nth.
  rewrite firstn_all2, skipn_all2 by lia. apply app_nil_r.
Qed.

(** X15. A pending timer is never cancelled or replaced: [setup] and the
    settling of a request leave the pending timers as they are, [log]
    leaves them or adds one with the current [batchInterval], and the
    firing of a timer removes that timer only. A change of [batchInterval]
    does not touch the timers already armed. *)
Theorem pending_timers_are_kept :
  forall (a : Action) (w : World),
  exists w' : World,
    step a (Some w) = Some w'
    /\ match a with
       | CallSetup _ => timers w' = timers w
       | CallLog _ _ =>
           timers w' = timers w \/ timers w' = timers w ++ [batchInterval (self w)]
       | TimerFires k => timers w' = drop_nth k (timers w)
       | Settles _ _ => timers w' = timers w
       end.
Proof.
  intros a w. destruct a as [options|now event|k|k r]; simpl; eexists;
    (split; [reflexivity|]).
  - reflexivity.
  - destruct (toObject event) as [payload|] eqn:T.
    + pose proof (log_schedule now event payload w T) as S. cbv zeta in S.
      destruct (due now (self w)); [right|left]; apply S.
    + left. apply (log_without_toObject_schedule now event w T).
  - unfold fire. destruct (nth_error (timers w) k) eqn:E.
    + destruct (sendEvents_counts
                  {| self := self w; timers := drop_nth k (timers w);
                     inflight := inflight w; trace := trace w |}) as [_ [_ [Ti _]]].
      exact Ti.
    + symmetry. apply drop_nth_beyond, E.
  - unfold settle. destruct (nth_error (inflight w) k); [|reflexivity].
    rewrite resume_timers. reflexivity.
Qed.
